(** * CLISupportSystem: the email triage engine of [email_processor.py]

    A shallow embedding of the class [CLISupportSystem] and the properties
    of its triage pipeline: keyword filter, priority score, category
    classifier, signal extraction, response template and the priority
    queue with its ordered view.

    Conventions of the embedding.
    - Python [str] is [string]; a character stands for its code point and
      the text alphabet is ASCII (code points below 128), which is where
      [lower], [strip], [\b], [\d] and the character classes of the three
      regular expressions are defined here.
    - Python [int] is [Z]; list positions and counters are [nat]; a
      [datetime] is a count of microseconds.
    - The dictionaries built by [process_emails] are shared between
      [processed_emails] and [priority_queue]; they live in an object
      store and both lists hold references into it.
    - An uncaught exception is the [Raise] result of the error monad.
    - The sentiment analyser (NLTK) and the wall clock are collaborators of
      the class: they are the classes [SentimentAnalyzer] and [Clock].
    - [load_emails] (pandas, CSV) and the printing of the command line are
      left out; [loaded] is the object after [load_emails] has stored
      emails whose cells are text, and a [row] is a stored email whose
      subject or body may be an object of another type. *)

From Stdlib Require Import ZArith QArith String Ascii List Bool Lia.
From stdpp Require Import base list strings gmap sorting.

Open Scope string_scope.

(* ===================================================================== *)
(** * Text primitives *)
(* ===================================================================== *)

Module Text.

Definition in_range (lo hi c : ascii) : bool :=
  (Ascii.leb lo c && Ascii.leb c hi)%bool.

Definition is_upper (c : ascii) : bool := in_range "A" "Z" c.
Definition is_lower (c : ascii) : bool := in_range "a" "z" c.
Definition is_digit (c : ascii) : bool := in_range "0" "9" c.
Definition is_alpha (c : ascii) : bool := (is_upper c || is_lower c)%bool.
Definition is_alnum (c : ascii) : bool := (is_alpha c || is_digit c)%bool.

(** [\w]: letters, digits and the underscore. *)
Definition is_word (c : ascii) : bool := (is_alnum c || Ascii.eqb c "_")%bool.

(** [str.isspace]: TAB..CR, FS..US and the blank. *)
Definition is_space (c : ascii) : bool :=
  (in_range "009" "013" c || in_range "028" "032" c)%bool.

Definition lower_char (c : ascii) : ascii :=
  if is_upper c then ascii_of_nat (nat_of_ascii c + 32) else c.

(** [s.lower()] *)
Fixpoint lower (s : string) : string :=
  match s with
  | EmptyString => EmptyString
  | String c s' => String (lower_char c) (lower s')
  end.

(** [kw in text] *)
Fixpoint contains (kw text : string) : bool :=
  (String.prefix kw text ||
   match text with
   | EmptyString => false
   | String _ text' => contains kw text'
   end)%bool.

(** [any(kw in text for kw in kws)] *)
Definition any_in (kws : list string) (text : string) : bool :=
  existsb (fun kw => contains kw text) kws.

Fixpoint lstrip (s : string) : string :=
  match s with
  | EmptyString => EmptyString
  | String c s' => if is_space c then lstrip s' else s
  end.

Fixpoint rstrip (s : string) : string :=
  match s with
  | EmptyString => EmptyString
  | String c s' =>
      match rstrip s' with
      | EmptyString => if is_space c then EmptyString else String c EmptyString
      | r => String c r
      end
  end.

(** [s.strip()] *)
Definition strip (s : string) : string := rstrip (lstrip s).

(** [s.replace(a, b)] for one-character [a] and [b]. *)
Fixpoint replace_char (a b : ascii) (s : string) : string :=
  match s with
  | EmptyString => EmptyString
  | String c s' => String (if Ascii.eqb c a then b else c) (replace_char a b s')
  end.

(** [all(cls(c) for c in s)] *)
Fixpoint all_chars (cls : ascii -> bool) (s : string) : bool :=
  match s with
  | EmptyString => true
  | String c s' => (cls c && all_chars cls s')%bool
  end.

(** The last character of a string. *)
Fixpoint last_char (s : string) : option ascii :=
  match s with
  | EmptyString => None
  | String c EmptyString => Some c
  | String _ s' => last_char s'
  end.

Definition nl : string := String "010" EmptyString.

(** [sep.join(parts)] *)
Fixpoint join (sep : string) (parts : list string) : string :=
  match parts with
  | [] => EmptyString
  | [p] => p
  | p :: ps => p ++ sep ++ join sep ps
  end.

(** [f"{a} {b}"] *)
Definition spaced (a b : string) : string := a ++ " " ++ b.

End Text.

(* ===================================================================== *)
(** * The regular expressions of the program *)
(* ===================================================================== *)

Module Re.
Import Text.

(** The three patterns are sequences of word boundaries and of greedy
    repetitions of a character class; [hi = None] is an open upper bound. *)
Inductive atom : Type :=
| Boundary
| Repeat (cls : ascii -> bool) (lo : nat) (hi : option nat).

Definition pattern : Type := list atom.

Definition one (cls : ascii -> bool) : atom := Repeat cls 1 (Some 1).
Definition opt (cls : ascii -> bool) : atom := Repeat cls 0 (Some 1).
Definition plus (cls : ascii -> bool) : atom := Repeat cls 1 None.
Definition times (n : nat) (cls : ascii -> bool) : atom := Repeat cls n (Some n).
Definition at_least (n : nat) (cls : ascii -> bool) : atom := Repeat cls n None.

Definition one_of (cs : string) (c : ascii) : bool :=
  existsb (Ascii.eqb c) (list_ascii_of_string cs).

Definition word_before (prev : option ascii) : bool :=
  match prev with Some c => is_word c | None => false end.

Definition word_after (s : string) : bool :=
  match s with String c _ => is_word c | EmptyString => false end.

(** [\b] holds between a word character and a non-word character (or an
    end of the text). *)
Definition at_boundary (prev : option ascii) (s : string) : bool :=
  xorb (word_before prev) (word_after s).

(** Length of the longest prefix of [s] in the class, capped by [hi]. *)
Fixpoint run_length (cls : ascii -> bool) (hi : option nat) (s : string) : nat :=
  match hi with
  | Some 0 => 0
  | _ =>
      match s with
      | String c s' =>
          if cls c then S (run_length cls (pred <$> hi) s') else 0
      | EmptyString => 0
      end
  end.

Fixpoint drop_chars (k : nat) (s : string) : string :=
  match k, s with
  | S k', String _ s' => drop_chars k' s'
  | _, _ => s
  end.

Fixpoint take_chars (k : nat) (s : string) : string :=
  match k, s with
  | S k', String c s' => String c (take_chars k' s')
  | _, _ => EmptyString
  end.

(** The character before the position reached after [k] characters. *)
Definition prev_after (k : nat) (prev : option ascii) (s : string) : option ascii :=
  match k with
  | 0 => prev
  | S k' => String.get k' s
  end.

(** Greedy choice with backtracking: the counts [n], [n-1], ..., [lo] are
    tried in this order and the first for which the rest matches wins. *)
Fixpoint backtrack (rest : nat -> option nat) (lo n : nat) : option nat :=
  if (n <? lo)%nat then None
  else match rest n with
       | Some m => Some (n + m)
       | None =>
           match n with
           | 0 => None
           | S n' => backtrack rest lo n'
           end
       end.

(** [match_at p prev s]: the pattern matched at the start of [s], the
    text before it ending in [prev]; the result is the match's length. *)
Fixpoint match_at (p : pattern) (prev : option ascii) (s : string) : option nat :=
  match p with
  | [] => Some 0
  | Boundary :: p' => if at_boundary prev s then match_at p' prev s else None
  | Repeat cls lo hi :: p' =>
      backtrack (fun k => match_at p' (prev_after k prev s) (drop_chars k s))
                lo (run_length cls hi s)
  end.

(** What it is for a pattern to match [n] characters at the start of [s],
    the text before ending in [prev]: each repetition takes a number of
    characters of its class within its bounds. *)
Inductive matches : pattern -> option ascii -> string -> nat -> Prop :=
| matches_nil prev s : matches [] prev s 0
| matches_boundary p prev s n :
    at_boundary prev s = true ->
    matches p prev s n ->
    matches (Boundary :: p) prev s n
| matches_repeat cls lo hi p prev s k n :
    lo <= k -> (forall h, hi = Some h -> k <= h) -> k <= String.length s ->
    all_chars cls (take_chars k s) = true ->
    matches p (prev_after k prev s) (drop_chars k s) n ->
    matches (Repeat cls lo hi :: p) prev s (k + n).

(** The least number of characters a match of the pattern takes. *)
Fixpoint min_length (p : pattern) : nat :=
  match p with
  | [] => 0
  | Boundary :: p' => min_length p'
  | Repeat _ lo _ :: p' => lo + min_length p'
  end.

(** [re.findall(p, s)]: the matches from left to right, the scan resuming
    after each match. [skip] counts the characters of the last match that
    are still to be passed over. None of the program's patterns matches
    the empty string ([min_length]), so no match has length 0. *)
Fixpoint findall_from (p : pattern) (prev : option ascii) (skip : nat)
    (s : string) : list string :=
  match s with
  | EmptyString => []
  | String c s' =>
      match skip with
      | S k => findall_from p (Some c) k s'
      | 0 =>
          match match_at p prev s with
          | Some (S n) => take_chars (S n) s :: findall_from p (Some c) n s'
          | _ => findall_from p (Some c) 0 s'
          end
      end
  end.

Definition findall (p : pattern) (s : string) : list string :=
  findall_from p None 0 s.

(** The text contains a match of the pattern (of one character at least)
    at some position. *)
Fixpoint has_match_from (p : pattern) (prev : option ascii) (s : string) : bool :=
  match s with
  | EmptyString => false
  | String c s' =>
      match match_at p prev s with
      | Some (S _) => true
      | _ => has_match_from p (Some c) s'
      end
  end.

Definition has_match (p : pattern) (s : string) : bool := has_match_from p None s.

(** [re.split] on a pattern that is a single character class. *)
Fixpoint split (cls : ascii -> bool) (s : string) : list string :=
  match s with
  | EmptyString => [EmptyString]
  | String c s' =>
      if cls c then EmptyString :: split cls s'
      else match split cls s' with
           | piece :: pieces => String c piece :: pieces
           | [] => [String c EmptyString]
           end
  end.

(** The characters of the class in [s], in order: the separators that
    [split] drops; and the text put together again from the pieces and
    the separators. *)
Fixpoint separators (cls : ascii -> bool) (s : string) : list ascii :=
  match s with
  | EmptyString => []
  | String c s' => if cls c then c :: separators cls s' else separators cls s'
  end.

Fixpoint rejoin (pieces : list string) (seps : list ascii) : string :=
  match pieces, seps with
  | piece :: pieces', sep :: seps' => piece ++ String sep (rejoin pieces' seps')
  | piece :: _, [] => piece
  | [], _ => EmptyString
  end.

End Re.

Import Text.

(* ===================================================================== *)
(** * Exceptions *)
(* ===================================================================== *)

Inductive exn : Type := TypeError | IndexError | AttributeError.

Inductive result (A : Type) : Type :=
| Ok (a : A)
| Raise (e : exn).

Arguments Ok {A} a.
Arguments Raise {A} e.

#[global] Instance result_ret : MRet result := fun A a => Ok a.

#[global] Instance result_bind : MBind result := fun A B k m =>
  match m with
  | Ok a => k a
  | Raise e => Raise e
  end.

(* ===================================================================== *)
(** * Data model *)
(* ===================================================================== *)

(** The dictionary built by [load_emails]; [sent_date] is the datetime as
    a count of microseconds (the resolution of [datetime]). *)
Record email : Type := {
  sender : string;
  subject : string;
  body : string;
  sent_date : Z;
  email_id : string
}.

Inductive sentiment_label : Type := Positive | Negative | Neutral.
Inductive priority_label : Type := Urgent | Not_urgent.
Inductive status_label : Type := Pending | Resolved.

(** The dictionary returned by [extract_information]. *)
Record extracted_info : Type := {
  phone_numbers : list string;
  alternate_emails : list string;
  requirements : list string;
  info_sentiment : sentiment_label
}.

(** The dictionary [processed_email]: the keys of the email ([**email])
    and the nine keys added by [process_emails]. *)
Record processed_email : Type := {
  source : email;
  sentiment : sentiment_label;
  priority : priority_label;
  urgency_score : Z;
  category : string;
  info : extracted_info;
  generated_response : string;
  status : status_label;
  processing_id : nat
}.

#[global] Instance email_eq_dec : EqDecision email.
Proof. solve_decision. Defined.
#[global] Instance sentiment_label_eq_dec : EqDecision sentiment_label.
Proof. solve_decision. Defined.
#[global] Instance priority_label_eq_dec : EqDecision priority_label.
Proof. solve_decision. Defined.
#[global] Instance status_label_eq_dec : EqDecision status_label.
Proof. solve_decision. Defined.
#[global] Instance extracted_info_eq_dec : EqDecision extracted_info.
Proof. solve_decision. Defined.
#[global] Instance processed_email_eq_dec : EqDecision processed_email.
Proof. solve_decision. Defined.

Definition set_status (v : status_label) (pe : processed_email) : processed_email :=
  {| source := source pe; sentiment := sentiment pe; priority := priority pe;
     urgency_score := urgency_score pe; category := category pe; info := info pe;
     generated_response := generated_response pe; status := v;
     processing_id := processing_id pe |}.

Definition set_generated_response (v : string) (pe : processed_email) : processed_email :=
  {| source := source pe; sentiment := sentiment pe; priority := priority pe;
     urgency_score := urgency_score pe; category := category pe; info := info pe;
     generated_response := v; status := status pe;
     processing_id := processing_id pe |}.

(** A reference to a [processed_email] dictionary: its place in the store. *)
Abbreviation ref := nat (only parsing).

(** An entry of [priority_queue]: [(-urgency_score, email_counter, processed_email)]. *)
Definition entry : Type := Z * nat * ref.

(** The counter of an entry. *)
Definition counter_of (x : entry) : nat := snd (fst x).

(** The attributes of a [CLISupportSystem] object (and the store of the
    dictionaries its lists share). *)
Record system : Type := {
  emails : list email;
  store : list processed_email;
  processed_emails : list ref;
  priority_queue : list entry;
  email_counter : nat
}.

(** The object after [__init__] and [load_emails]. *)
Definition loaded (batch : list email) : system :=
  {| emails := batch; store := []; processed_emails := [];
     priority_queue := []; email_counter := 0 |}.

Definition priority_keywords : list string :=
  ["urgent"; "critical"; "immediately"; "emergency";
   "cannot access"; "blocked"; "down"; "broken"; "not working"].

Definition knowledge_base : gmap string string :=
  list_to_map
    [("account_verification", "Account verification emails are sent immediately after registration. If not received, check spam folder or request a new verification link.");
     ("login_issues", "Common login issues include incorrect passwords, browser cache problems, or account lockouts. Try resetting password or clearing browser cache.");
     ("billing_errors", "Billing issues are handled by our finance team. Refunds typically process within 5-7 business days after approval.");
     ("api_integration", "We support REST API integration with comprehensive documentation available at api.docs.example.com.");
     ("subscription", "We offer Basic ($29/mo), Pro ($79/mo), and Enterprise ($199/mo) plans. All include 24/7 support and API access.");
     ("password_reset", "Password reset links expire after 1 hour. If the link doesn't work, request a new one from the login page.")].

(* ===================================================================== *)
(** * heapq and sorted *)
(* ===================================================================== *)

Module Heapq.

(** [a < b] on the tuples of the queue: the scores, then the counters;
    equal on both, the two dictionaries decide: the same or equal ones
    make the tuples equal, and different ones have no order. [objs] is the
    store the references point into. *)
Definition entry_lt (objs : list processed_email) (a b : entry) : result bool :=
  let '(sa, ca, ra) := a in
  let '(sb, cb, rb) := b in
  if (sa <? sb)%Z then Ok true
  else if (sb <? sa)%Z then Ok false
  else if (ca <? cb)%nat then Ok true
  else if (cb <? ca)%nat then Ok false
  else if bool_decide (objs !! ra = objs !! rb) then Ok false
  else Raise TypeError.

(** The loop of [_siftdown(heap, 0, pos)]; [fuel] bounds its iterations
    and [pos] itself is enough, the position at least halving each time. *)
Fixpoint siftdown_loop (objs : list processed_email) (fuel : nat) (heap : list entry)
    (newitem : entry) (pos : nat) : result (list entry) :=
  match fuel with
  | 0 => Ok (<[pos := newitem]> heap)
  | S fuel' =>
      if (0 <? pos)%nat then
        let parentpos := ((pos - 1) / 2)%nat in
        match heap !! parentpos with
        | None => Raise IndexError
        | Some parent =>
            lt ← entry_lt objs newitem parent;
            if lt : bool
            then siftdown_loop objs fuel' (<[pos := parent]> heap) newitem parentpos
            else Ok (<[pos := newitem]> heap)
        end
      else Ok (<[pos := newitem]> heap)
  end.

Definition siftdown (objs : list processed_email) (heap : list entry) (pos : nat)
    : result (list entry) :=
  match heap !! pos with
  | None => Raise IndexError
  | Some newitem => siftdown_loop objs pos heap newitem pos
  end.

(** [heapq.heappush(heap, item)] *)
Definition heappush (objs : list processed_email) (heap : list entry) (item : entry)
    : result (list entry) :=
  siftdown objs (heap ++ [item])%list (length heap).

End Heapq.

(** [sorted(l, key=key)]: Python's sort is stable, so its result is the
    one of this insertion sort, which puts an element before the elements
    to its right whose key is not smaller ([sorted_unique]). *)
Fixpoint insert_by {A : Type} (key : A -> Z) (x : A) (l : list A) : list A :=
  match l with
  | [] => [x]
  | y :: l' => if (key x <=? key y)%Z then x :: l else y :: insert_by key x l'
  end.

Definition sorted {A : Type} (key : A -> Z) (l : list A) : list A :=
  foldr (insert_by key) [] l.

(** [max(l, key=key)]: the first of the maximal elements. *)
Definition py_max {A : Type} (key : A -> Z) (l : list A) : option A :=
  match l with
  | [] => None
  | x :: xs =>
      Some (fold_left (fun best y => if (key best <? key y)%Z then y else best) xs x)
  end.

(* ===================================================================== *)
(** * textwrap.dedent *)
(* ===================================================================== *)

Module Textwrap.

Definition is_blank (c : ascii) : bool := (Ascii.eqb c " " || Ascii.eqb c "009")%bool.

(** The leading blanks of a line. *)
Fixpoint indent_of (line : string) : string :=
  match line with
  | String c line' => if is_blank c then String c (indent_of line') else EmptyString
  | EmptyString => EmptyString
  end.

Fixpoint common_prefix (a b : string) : string :=
  match a, b with
  | String x a', String y b' =>
      if Ascii.eqb x y then String x (common_prefix a' b') else EmptyString
  | _, _ => EmptyString
  end.

(** The margin: the longest common prefix of the indents. *)
Definition margin_of (indents : list string) : string :=
  match indents with
  | [] => EmptyString
  | i :: rest => fold_left common_prefix rest i
  end.

Definition remove_margin (margin line : string) : string :=
  if String.prefix margin line then Re.drop_chars (String.length margin) line else line.

(** [textwrap.dedent(text)]: lines of blanks only are emptied, then the
    margin common to the other lines is removed from each of them. *)
Definition dedent (text : string) : string :=
  let lines := map (fun l => if all_chars is_blank l then EmptyString else l)
                   (Re.split (Ascii.eqb "010") text) in
  let indents := map indent_of (List.filter (fun l => negb (String.eqb l EmptyString)) lines) in
  join nl (map (remove_margin (margin_of indents)) lines).

End Textwrap.

(* ===================================================================== *)
(** * The engine *)
(* ===================================================================== *)

(** [self.sia.polarity_scores(text)['compound']]: a number from -1 to 1
    that the analyser gives with four decimals, here as a rational. *)
Class SentimentAnalyzer : Type := polarity_compound : string -> Q.

(** [datetime.now()] in microseconds, at the k-th email of the batch. *)
Class Clock : Type := datetime_now : nat -> Z.

Definition support_keywords : list string :=
  ["support"; "query"; "request"; "help"; "assist"; "issue"; "problem"].

Definition is_support (e : email) : bool :=
  (any_in support_keywords (lower (subject e)) ||
   any_in support_keywords (lower (body e)))%bool.

Definition filter_emails (st : system) : list email :=
  List.filter is_support (emails st).

Definition analyze_sentiment `{SentimentAnalyzer} (text : string) : sentiment_label * Q :=
  let compound := polarity_compound text in
  if Qle_bool (5 # 100) compound then (Positive, compound)
  else if Qle_bool compound (- (5 # 100)) then (Negative, compound)
  else (Neutral, compound).

(** [sum(1 for keyword in kws if keyword in text)] *)
Definition count_present (kws : list string) (text : string) : Z :=
  fold_left (fun acc kw => if contains kw text then (acc + 1)%Z else acc) kws 0%Z.

Definition Qlt_bool (a b : Q) : bool := negb (Qle_bool b a).

(** [(now - sent_date).total_seconds() / 3600]: the age in hours, exact
    here; the comparisons with 1, 4 and 12 come out the same. *)
Definition hours_old (now : Z) (e : email) : Q :=
  (now - sent_date e)%Z # 3600000000.

Definition determine_priority `{SentimentAnalyzer} (now : Z) (e : email)
    : priority_label * Z :=
  let text := lower (spaced (subject e) (body e)) in
  let urgency_score := count_present priority_keywords text in
  let '(sentiment, score) := analyze_sentiment text in
  let urgency_score :=
    match sentiment with
    | Negative => (urgency_score + 2)%Z
    | Positive => (urgency_score - 1)%Z
    | Neutral => urgency_score
    end in
  let hours_old := hours_old now e in
  let urgency_score :=
    if Qlt_bool hours_old 1 then (urgency_score + 3)%Z
    else if Qlt_bool hours_old 4 then (urgency_score + 2)%Z
    else if Qlt_bool hours_old 12 then (urgency_score + 1)%Z
    else urgency_score in
  (if (3 <=? urgency_score)%Z then Urgent else Not_urgent, urgency_score).

(** [\b\d{3}[-.]?\d{3}[-.]?\d{4}\b] *)
Definition phone_pattern : Re.pattern :=
  [Re.Boundary; Re.times 3 is_digit; Re.opt (Re.one_of "-."); Re.times 3 is_digit;
   Re.opt (Re.one_of "-."); Re.times 4 is_digit; Re.Boundary].

(** [\b[A-Za-z0-9._%+-]+@[A-Za-z0-9.-]+\.[A-Z|a-z]{2,}\b] *)
Definition email_pattern : Re.pattern :=
  [Re.Boundary;
   Re.plus (fun c => is_alnum c || Re.one_of "._%+-" c)%bool;
   Re.one (Ascii.eqb "@");
   Re.plus (fun c => is_alnum c || Re.one_of ".-" c)%bool;
   Re.one (Ascii.eqb ".");
   Re.at_least 2 (fun c => is_alpha c || Ascii.eqb c "|")%bool;
   Re.Boundary].

Definition requirement_keywords : list string :=
  ["need"; "want"; "require"; "looking for"; "help with"].

(** [s[key]] for a string [s] and a string [key]: string indices must be
    integers. *)
Definition str_getitem (s key : string) : result string := Raise TypeError.

(** [[email for email in emails if email != email['sender']]]: inside the
    comprehension the name [email] is the element, a string. *)
Fixpoint alternates (emails : list string) : result (list string) :=
  match emails with
  | [] => Ok []
  | email :: rest =>
      own ← str_getitem email "sender";
      others ← alternates rest;
      Ok (if String.eqb email own then others else email :: others)
  end.

(** The loop over the sentences that fills [requirements]. *)
Definition collect_requirements (sentences : list string) : list string :=
  fold_left
    (fun reqs sentence =>
       if any_in requirement_keywords (lower sentence) then (reqs ++ [strip sentence])%list
       else reqs)
    sentences [].

Definition extract_information `{SentimentAnalyzer} (e : email) : result extracted_info :=
  let text := spaced (subject e) (body e) in
  let phones := Re.findall phone_pattern text in
  let found := Re.findall email_pattern text in
  let sentences := Re.split (Re.one_of ".!?") text in
  let reqs := collect_requirements sentences in
  alts ← alternates found;
  Ok {| phone_numbers := phones;
        alternate_emails := alts;
        requirements := take 3 reqs;
        info_sentiment := fst (analyze_sentiment text) |}.

Definition categories : list (string * list string) :=
  [("account_issues", ["account"; "verify"; "verification"; "login"; "password"]);
   ("billing", ["billing"; "payment"; "charge"; "refund"; "invoice"]);
   ("technical", ["api"; "integration"; "technical"; "server"; "system"]);
   ("general", ["question"; "query"; "information"; "help"])].

(** The dictionary [scores] after the two nested loops, in the insertion
    order of its keys. *)
Definition category_scores (text : string) : list (string * Z) :=
  map (fun '(category, keywords) => (category, count_present keywords text)) categories.

Definition categorize_email (e : email) : string :=
  let text := lower (spaced (subject e) (body e)) in
  match py_max snd (category_scores text) with
  | Some (category, _) => category
  | None => EmptyString   (* max() of an empty dictionary: [categories] has four keys *)
  end.

Definition fallback : string :=
  "Our team is looking into your request and will provide assistance shortly.".

Definition greeting_of (s : sentiment_label) : string :=
  match s with
  | Negative => "Thank you for bringing this to our attention. We sincerely apologize for the inconvenience you've experienced."
  | Positive => "Thank you for reaching out to us! We appreciate your feedback."
  | Neutral => "Thank you for contacting our support team."
  end.

Definition empathy_of (s : sentiment_label) : string :=
  match s with
  | Negative => "We understand your frustration and are committed to resolving this issue promptly."
  | Positive => "We're glad to hear from you and are happy to assist."
  | Neutral => "We're here to help and will address your inquiry promptly."
  end.

(** The f-string of [generate_response]. *)
Definition template (greeting empathy category knowledge : string) : string :=
  nl ++ greeting ++ nl ++
  nl ++ empathy ++ nl ++
  nl ++ "Regarding your " ++ replace_char "_" " " category ++ ": " ++ knowledge ++ nl ++
  nl ++ "Please don't hesitate to reach out if you need any further assistance." ++ nl ++
  nl ++ "Best regards," ++ nl ++
  "Support Team" ++ nl.

Definition generate_response (e : email) (extracted : extracted_info) : string :=
  let category := categorize_email e in
  let sentiment := info_sentiment extracted in
  let knowledge := default fallback (knowledge_base !! category) in
  strip (Textwrap.dedent
           (template (greeting_of sentiment) (empathy_of sentiment) category knowledge)).

(** One iteration of the loop of [process_emails]; [k] numbers the
    iteration. *)
Definition process_email `{SentimentAnalyzer} `{Clock} (k : nat) (st : system)
    (e : email) : result system :=
  let '(sentiment, score) := analyze_sentiment (spaced (subject e) (body e)) in
  let '(priority, urgency_score) := determine_priority (datetime_now k) e in
  let category := categorize_email e in
  extracted ← extract_information e;
  let response := generate_response e extracted in
  let processed_email :=
    {| source := e; sentiment := sentiment; priority := priority;
       urgency_score := urgency_score; category := category; info := extracted;
       generated_response := response; status := Pending;
       processing_id := email_counter st |} in
  let r : ref := length (store st) in
  let objs := (store st ++ [processed_email])%list in
  queue ← Heapq.heappush objs (priority_queue st)
            ((- urgency_score)%Z, email_counter st, r);
  Ok {| emails := emails st;
        store := objs;
        processed_emails := (processed_emails st ++ [r])%list;
        priority_queue := queue;
        email_counter := S (email_counter st) |}.

Fixpoint process_loop `{SentimentAnalyzer} `{Clock} (k : nat) (filtered : list email)
    (st : system) : result system :=
  match filtered with
  | [] => Ok st
  | e :: rest => st' ← process_email k st e; process_loop (S k) rest st'
  end.

Definition process_emails `{SentimentAnalyzer} `{Clock} (st : system)
    : result (system * nat) :=
  let filtered := filter_emails st in
  st' ← process_loop 0 filtered st;
  Ok (st', length filtered).

(** [[email for _, _, email in sorted(self.priority_queue, key=lambda x: x[0])]] *)
Definition priority_emails (st : system) : list ref :=
  map snd (sorted (fun x : entry => fst (fst x)) (priority_queue st)).

(** The dictionaries behind a list of references. *)
Definition deref (st : system) (rs : list ref) : list processed_email :=
  omap (fun r => store st !! r) rs.

(** The emails listed by [display_emails(priority_filter)], in the order
    of the listing. *)
Definition display_emails (st : system) (priority_filter : option priority_label)
    : list processed_email :=
  match processed_emails st with
  | [] => []
  | _ =>
      let listed := deref st (priority_emails st) in
      match priority_filter with
      | Some p =>
          List.filter (fun pe => match priority pe, p with
                                 | Urgent, Urgent | Not_urgent, Not_urgent => true
                                 | _, _ => false
                                 end) listed
      | None => listed
      end
  end.

(** What [show_email_detail] put on the screen: the message
    [Invalid email index.] or the detail of one email. *)
Inductive shown : Type :=
| Invalid_index
| Detail (pe : processed_email).

(** [show_email_detail(index)]; [choice] and [reply] are the lines read by
    the two calls of [input]. *)
Definition show_email_detail (st : system) (index : Z) (choice reply : string)
    : result (system * shown) :=
  if ((index <? 1) || (Z.of_nat (length (processed_emails st)) <? index))%Z%bool
  then Ok (st, Invalid_index)
  else
    match priority_emails st !! Z.to_nat (index - 1) with
    | None => Raise IndexError
    | Some r =>
        match store st !! r with
        | None => Raise IndexError
        | Some pe =>
            let update (f : processed_email -> processed_email) : system :=
              {| emails := emails st;
                 store := <[r := f pe]> (store st);
                 processed_emails := processed_emails st;
                 priority_queue := priority_queue st;
                 email_counter := email_counter st |} in
            let choice := strip choice in
            if String.eqb choice "1" then Ok (update (set_status Resolved), Detail pe)
            else if String.eqb choice "2" then
              let new_response := strip reply in
              if negb (String.eqb new_response EmptyString)
              then Ok (update (set_generated_response new_response), Detail pe)
              else Ok (st, Detail pe)
            else Ok (st, Detail pe)
        end
    end.

(** The alternate addresses as the specification words them: the matches
    other than the sender's own address. *)
Definition alternates_spec (own : string) (found : list string) : list string :=
  List.filter (fun m => negb (String.eqb m own)) found.

(** The requirements as the specification words them: of the sentences
    between the terminators, those that hold a requirement keyword once
    lowercased, trimmed, the first three in the order of the text. *)
Definition requirements_spec (text : string) : list string :=
  take 3 (map strip (List.filter (fun s => any_in requirement_keywords (lower s))
                       (Re.split (Re.one_of ".!?") text))).

(** The sentiment adjustment and the recency bonus as the specification
    words them; the age is in microseconds. *)
Definition sentiment_adjustment (s : sentiment_label) : Z :=
  match s with
  | Negative => 2
  | Positive => -1
  | Neutral => 0
  end.

Definition hour : Z := 3600000000.

Definition recency_bonus (now : Z) (e : email) : Z :=
  let age := (now - sent_date e)%Z in
  if (age <? 1 * hour)%Z then 3
  else if (age <? 4 * hour)%Z then 2
  else if (age <? 12 * hour)%Z then 1
  else 0.

(** The state of a system in which every entry of the queue refers to a
    stored dictionary and the two lists are as long as each other, as
    [process_emails] leaves them. *)
Definition well_formed (st : system) : Prop :=
  length (priority_queue st) = length (processed_emails st) /\
  Forall (fun x : entry => snd x < length (store st)) (priority_queue st).

(** Every counter in the queue is below [email_counter], and every entry
    carries the negated score of the dictionary it refers to. *)
Definition counters_below (st : system) : Prop :=
  Forall (fun x : entry => counter_of x < email_counter st) (priority_queue st).

Definition keyed (st : system) : Prop :=
  Forall (fun x : entry =>
            exists pe, store st !! snd x = Some pe /\
                       fst (fst x) = (- urgency_score pe)%Z)
         (priority_queue st).

(** The text of an email as [extract_information] reads it. *)
Definition text_of (e : email) : string := spaced (subject e) (body e).

(** The order of the ordered view as the specification words it: by
    score from high to low and, for equal scores, by sequence number from
    low to high. *)
Definition before_in_view (a b : processed_email) : Prop :=
  (urgency_score b < urgency_score a)%Z \/
  (urgency_score a = urgency_score b /\ processing_id a < processing_id b).

Definition ordered_by_score_then_sequence (view : list processed_email) : Prop :=
  StronglySorted before_in_view view.

(** Two analysers that give the text of an email, as written and in
    lowercase, the same labels. *)
Definition same_labels (sa sa' : SentimentAnalyzer) (e : email) : Prop :=
  fst (@analyze_sentiment sa (text_of e)) = fst (@analyze_sentiment sa' (text_of e)) /\
  fst (@analyze_sentiment sa (lower (text_of e)))
  = fst (@analyze_sentiment sa' (lower (text_of e))).

(** Two dictionaries that differ in [status] and [generated_response] at
    most. *)
Definition same_but_workflow (a b : processed_email) : Prop :=
  source a = source b /\ sentiment a = sentiment b /\ priority a = priority b /\
  urgency_score a = urgency_score b /\ category a = category b /\
  info a = info b /\ processing_id a = processing_id b.

(* ===================================================================== *)
(** * Sample emails *)
(* ===================================================================== *)

(** An email that names its sender's address and another one. *)
Definition mail_with_addresses : email :=
  {| sender := "bob@example.com";
     subject := "Help with login";
     body := "Please reply to bob@example.com or to carol@example.com";
     sent_date := 0;
     email_id := "email_2" |}.

(** An analyser that finds every text neutral. *)
Definition neutral_analyzer : SentimentAnalyzer := fun _ => 0%Q.

Definition mail (s b : string) (sent : Z) (name : string) : email :=
  {| sender := "alice@example.org"; subject := s; body := b;
     sent_date := sent; email_id := name |}.

(** A clock that starts at the hundredth hour and advances by one
    microsecond from a reading to the next. *)
Definition ticking_clock : Clock := fun k => (100 * hour + Z.of_nat k)%Z.

(** The compound score of a text with the given label, and the analyser
    that labels the lowercase text of the sample emails [low] and every
    other text [raw]. *)
Definition compound_of (l : sentiment_label) : Q :=
  match l with
  | Positive => 1
  | Negative => -1
  | Neutral => 0
  end.

Definition labelling (raw low : sentiment_label) : SentimentAnalyzer :=
  fun text => if String.eqb text "help my login is broken"
              then compound_of low else compound_of raw.

(** A batch whose second support email holds addresses. *)
Definition batch_with_addresses : list email :=
  [mail "Help" "My login is broken" 0 "email_1"; mail_with_addresses].

(** Two old emails of equal text, then a recent one, then one that is
    not about support. *)
Definition sample_batch : list email :=
  [mail "Help" "My login is broken" 0 "email_1";
   mail "Help" "My login is broken" 0 "email_2";
   mail "Help" "My login is broken" (100 * hour) "email_3";
   mail "Greetings" "See you on Monday" 0 "email_4"].

(** The system after [process_emails] on [sample_batch]. *)
Definition sample_system : system :=
  match @process_emails neutral_analyzer ticking_clock (loaded sample_batch) with
  | Ok (st, _) => st
  | Raise _ => loaded sample_batch
  end.

From Stdlib Require Import Lqa.

(* ===================================================================== *)
(** * display_analytics *)
(* ===================================================================== *)

(** [counts[k] += 1] on a [defaultdict(int)]; the keys stay in the order
    of their first use. *)
Fixpoint bump {K : Type} `{EqDecision K} (k : K) (counts : list (K * Z))
    : list (K * Z) :=
  match counts with
  | [] => [(k, 1%Z)]
  | (k', n) :: rest =>
      if decide (k = k') then (k', (n + 1)%Z) :: rest else (k', n) :: bump k rest
  end.

(** The loop that fills one of the three dictionaries of counts. *)
Definition count_by {K : Type} `{EqDecision K} (key : processed_email -> K)
    (items : list processed_email) : list (K * Z) :=
  fold_left (fun counts pe => bump (key pe) counts) items [].

(** [sum(1 for email in items if email.get('status') == 'Resolved')] *)
Definition count_resolved (items : list processed_email) : Z :=
  fold_left (fun acc pe => match status pe with
                           | Resolved => (acc + 1)%Z
                           | Pending => acc
                           end) items 0%Z.

(** The numbers that [display_analytics] prints. *)
Record analytics : Type := {
  total_emails : Z;
  resolved_emails : Z;
  pending_emails : Z;
  sentiment_counts : list (sentiment_label * Z);
  priority_counts : list (priority_label * Z);
  category_counts : list (string * Z)
}.

(** [display_analytics()]: nothing but a message when no email has been
    processed. *)
Definition display_analytics (st : system) : option analytics :=
  match processed_emails st with
  | [] => None
  | _ =>
      let items := deref st (processed_emails st) in
      let total := Z.of_nat (length (processed_emails st)) in
      let resolved := count_resolved items in
      Some {| total_emails := total;
              resolved_emails := resolved;
              pending_emails := (total - resolved)%Z;
              sentiment_counts := count_by sentiment items;
              priority_counts := count_by priority items;
              category_counts := count_by category items |}
  end.

(** [counts[k]], and 0 for a key that is not there. *)
Definition count_for {K : Type} `{EqDecision K} (k : K) (counts : list (K * Z)) : Z :=
  match List.find (fun kn => bool_decide (fst kn = k)) counts with
  | Some (_, n) => n
  | None => 0%Z
  end.

(** The sum of the counts of a dictionary. *)
Definition sum_counts {K : Type} (counts : list (K * Z)) : Z :=
  fold_right (fun kn acc => (snd kn + acc)%Z) 0%Z counts.

(* ===================================================================== *)
(** * What process_emails stores *)
(* ===================================================================== *)

(** The signals of an email whose text holds no address. *)
Definition signals_of `{SentimentAnalyzer} (e : email) : extracted_info :=
  {| phone_numbers := Re.findall phone_pattern (text_of e);
     alternate_emails := [];
     requirements :=
       take 3 (collect_requirements (Re.split (Re.one_of ".!?") (text_of e)));
     info_sentiment := fst (analyze_sentiment (text_of e)) |}.

(** The dictionary stored for such an email at iteration [k] with counter
    [c], and the dictionaries stored for a list of them. *)
Definition item_of `{SentimentAnalyzer} `{Clock} (k c : nat) (e : email)
    : processed_email :=
  {| source := e;
     sentiment := fst (analyze_sentiment (text_of e));
     priority := fst (determine_priority (datetime_now k) e);
     urgency_score := snd (determine_priority (datetime_now k) e);
     category := categorize_email e;
     info := signals_of e;
     generated_response := generate_response e (signals_of e);
     status := Pending;
     processing_id := c |}.

Fixpoint items_from `{SentimentAnalyzer} `{Clock} (k c : nat) (filtered : list email)
    : list processed_email :=
  match filtered with
  | [] => []
  | e :: rest => item_of k c e :: items_from (S k) (S c) rest
  end.

(** The states that [process_emails] and [show_email_detail] produce: on
    top of [well_formed], [keyed] and [counters_below], the references of
    [processed_emails] are those of the store in order, the queue holds
    each of them once, and the priority label of a stored dictionary goes
    with its score. *)
Definition consistent (st : system) : Prop :=
  counters_below st /\ keyed st /\ well_formed st /\
  processed_emails st = seq 0 (length (store st)) /\
  map snd (priority_queue st) ≡ₚ processed_emails st /\
  Forall (fun pe => priority pe = Urgent <-> (3 <= urgency_score pe)%Z) (store st).

(** A recent email and an old one, for the runs below. *)
Definition recent_mail : email :=
  mail "Question" "Where is the invoice" (100 * hour - hour / 2) "email_1".

Definition old_mail : email :=
  mail "Question" "Where is the invoice" 0 "email_1".

(** What it is for a dictionary of counts to tally the items by a key:
    every key that occurs is listed once, with the number of items that
    have it, and no other key is listed. *)
Definition tallies {K : Type} `{EqDecision K} (key : processed_email -> K)
    (items : list processed_email) (counts : list (K * Z)) : Prop :=
  NoDup (map fst counts) /\
  (forall k, In k (map fst counts) <-> In k (map key items)) /\
  (forall k, count_for k counts
             = Z.of_nat (length (List.filter (fun pe => bool_decide (key pe = k)) items))) /\
  Forall (fun kn => (1 <= snd kn)%Z) counts.

(** The number of stored dictionaries with a given status. *)
Definition with_status (s : status_label) (items : list processed_email) : Z :=
  Z.of_nat (length (List.filter (fun pe => bool_decide (status pe = s)) items)).

(** The dictionary that [show_email_detail] leaves in place of the one it
    shows, after the lines [choice] and [reply]; and a system with another
    store. *)
Definition edited (choice reply : string) (pe : processed_email) : processed_email :=
  if String.eqb (strip choice) "1" then set_status Resolved pe
  else if (String.eqb (strip choice) "2"
           && negb (String.eqb (strip reply) EmptyString))%bool
       then set_generated_response (strip reply) pe
       else pe.

Definition with_store (st : system) (objs : list processed_email) : system :=
  {| emails := emails st; store := objs; processed_emails := processed_emails st;
     priority_queue := priority_queue st; email_counter := email_counter st |}.

(** The text of a response, written out: the two sentences that go with
    the sentiment, the category with its underscores as blanks, and the
    generic sentence. *)
Definition response_text (s : sentiment_label) (category : string) : string :=
  greeting_of s ++ nl ++ nl ++ empathy_of s ++ nl ++ nl ++
  "Regarding your " ++ replace_char "_" " " category ++ ": " ++ fallback ++ nl ++ nl ++
  "Please don't hesitate to reach out if you need any further assistance." ++ nl ++ nl ++
  "Best regards," ++ nl ++ "Support Team".

(** The shape of a phone number: ten digits in groups of three, three and
    four, each of the two gaps empty or one of [-] and [.]. *)
Definition digits (n : nat) (x : string) : Prop :=
  String.length x = n /\ all_chars is_digit x = true.

Definition separator (x : string) : Prop :=
  x = EmptyString \/ x = "-" \/ x = ".".

Definition phone_shaped (m : string) : Prop :=
  exists a s1 b s2 c,
    m = a ++ s1 ++ b ++ s2 ++ c /\
    digits 3 a /\ separator s1 /\ digits 3 b /\ separator s2 /\ digits 4 c.

(** A support email that gives a phone number. *)
Definition mail_with_phone : email :=
  mail "Callback" "Please help with my order, call 555-123.4567 today" 0 "email_1".

(* ===================================================================== *)
(** * run_cli *)
(* ===================================================================== *)

(** [int(s)]: the number a line stands for, or nothing where [int] raises
    a [ValueError]. *)
Class IntParser : Type := int_of : string -> option Z.

(** What the menu puts on the screen: a listing, the statistics, the
    outcome of [show_email_detail], or one of three messages. *)
Inductive screen : Type :=
| Listing (priority_filter : option priority_label) (items : list processed_email)
| Statistics (numbers : option analytics)
| Details (out : shown)
| Not_a_number
| Invalid_choice
| Goodbye.

(** How [run_cli] ends: it returns, an exception of the engine is not
    caught, or [input] finds no line left and raises [EOFError]. *)
Inductive ending : Type :=
| Returned (st : system)
| Uncaught (x : exn)
| End_of_input (st : system).

Definition shows (s : screen) (rest : list screen * ending) : list screen * ending :=
  (s :: fst rest, snd rest).

(** The loop of the main menu; [inputs] are the lines that [input] reads,
    in order. [show_email_detail] reads its lines only once the detail is
    on the screen, and the second one only after the choice 2. *)
Fixpoint menu `{IntParser} (inputs : list string) (st : system)
    : list screen * ending :=
  match inputs with
  | [] => ([], End_of_input st)
  | line :: rest =>
      let choice := strip line in
      if String.eqb choice "1" then
        shows (Listing None (display_emails st None)) (menu rest st)
      else if String.eqb choice "2" then
        shows (Listing (Some Urgent) (display_emails st (Some Urgent))) (menu rest st)
      else if String.eqb choice "3" then
        shows (Statistics (display_analytics st)) (menu rest st)
      else if String.eqb choice "4" then
        match rest with
        | [] => ([], End_of_input st)
        | number :: rest1 =>
            match int_of number with
            | None => shows Not_a_number (menu rest1 st)
            | Some index =>
                match show_email_detail st index EmptyString EmptyString with
                | Raise x => ([], Uncaught x)
                | Ok (_, Invalid_index) => shows (Details Invalid_index) (menu rest1 st)
                | Ok (_, Detail pe) =>
                    match rest1 with
                    | [] => ([Details (Detail pe)], End_of_input st)
                    | answer :: rest2 =>
                        if String.eqb (strip answer) "2" then
                          match rest2 with
                          | [] => ([Details (Detail pe)], End_of_input st)
                          | reply :: rest3 =>
                              match show_email_detail st index answer reply with
                              | Ok (st', out) => shows (Details out) (menu rest3 st')
                              | Raise x => ([], Uncaught x)
                              end
                          end
                        else
                          match show_email_detail st index answer EmptyString with
                          | Ok (st', out) => shows (Details out) (menu rest2 st')
                          | Raise x => ([], Uncaught x)
                          end
                    end
                end
            end
        end
      else if String.eqb choice "5" then ([Goodbye], Returned st)
      else shows Invalid_choice (menu rest st)
  end.

(** [run_cli()]: [batch] holds the emails that [load_emails] appended and
    [load_ok] is what it returned. *)
Definition run_cli `{SentimentAnalyzer} `{Clock} `{IntParser} (batch : list email)
    (load_ok : bool) (inputs : list string) : list screen * ending :=
  if load_ok then
    match process_emails (loaded batch) with
    | Raise x => ([], Uncaught x)
    | Ok (st, processed_count) =>
        if (processed_count =? 0)%nat then ([], Returned st) else menu inputs st
    end
  else ([], Returned (loaded batch)).

(** A cell of the CSV file as [load_emails] stores it under ['subject']
    and ['body']: a [str], or an object of another type (pandas gives the
    float NaN for an empty cell), which has no method [lower]. *)
Inductive cell : Type :=
| Text (s : string)
| Not_text.

(** A dictionary as [load_emails] appends it to [self.emails]. The sender
    is only ever formatted for printing, and [row_sender] is the text
    that is printed for it; the date went through [strptime]. *)
Record row : Type := {
  row_sender : string;
  row_subject : cell;
  row_body : cell;
  row_sent_date : Z;
  row_id : string
}.

(** [cell.lower()] *)
Definition cell_lower (c : cell) : result string :=
  match c with
  | Text s => Ok (lower s)
  | Not_text => Raise AttributeError
  end.

(** The loop of [filter_emails()] over the dictionaries as they were
    loaded: both cells are lowercased before the keywords are looked
    for. *)
Fixpoint filter_rows (rows filtered_emails : list row) : result (list row) :=
  match rows with
  | [] => Ok filtered_emails
  | r :: rest =>
      subject_lower ← cell_lower (row_subject r);
      body_lower ← cell_lower (row_body r);
      if (any_in support_keywords subject_lower ||
          any_in support_keywords body_lower)%bool
      then filter_rows rest (filtered_emails ++ [r])%list
      else filter_rows rest filtered_emails
  end.

(** A dictionary whose subject and body are text, as an [email]. *)
Definition as_email (r : row) : option email :=
  match row_subject r, row_body r with
  | Text s, Text b =>
      Some {| sender := row_sender r; subject := s; body := b;
              sent_date := row_sent_date r; email_id := row_id r |}
  | _, _ => None
  end.

(** Dictionaries read as emails; a cell that is not text has none of the
    methods of [str]. *)
Fixpoint texts (rows : list row) : result (list email) :=
  match rows with
  | [] => Ok []
  | r :: rest =>
      match as_email r with
      | Some e => batch ← texts rest; Ok (e :: batch)
      | None => Raise AttributeError
      end
  end.

(** [process_emails()] right after [load_emails] has stored [rows]:
    [filter_emails] goes first and has lowercased every cell by the time
    the first email is processed. *)
Definition process_rows `{SentimentAnalyzer} `{Clock} (rows : list row)
    : result (system * nat) :=
  filtered_emails ← filter_rows rows [];
  batch ← texts rows;
  filtered ← texts filtered_emails;
  st ← process_loop 0 filtered (loaded batch);
  Ok (st, length filtered_emails).

(** [run_cli()] from the call of [process_emails] on, once [load_emails]
    has stored [rows] and returned [True]. *)
Definition run_cli_loaded `{SentimentAnalyzer} `{Clock} `{IntParser}
    (rows : list row) (inputs : list string) : list screen * ending :=
  match process_rows rows with
  | Raise x => ([], Uncaught x)
  | Ok (st, processed_count) =>
      if (processed_count =? 0)%nat then ([], Returned st) else menu inputs st
  end.

(** The dictionary of an email, and one whose body cell was empty. *)
Definition row_of (e : email) : row :=
  {| row_sender := sender e; row_subject := Text (subject e);
     row_body := Text (body e); row_sent_date := sent_date e;
     row_id := email_id e |}.

Definition row_without_body : row :=
  {| row_sender := "alice@example.org"; row_subject := Text "Greetings";
     row_body := Not_text; row_sent_date := 0; row_id := "email_3" |}.

(** The blanks that [int] skips around an ASCII numeral: TAB..CR and the
    blank. *)
Definition int_space (c : ascii) : bool :=
  (in_range "009" "013" c || Ascii.eqb c " ")%bool.

Fixpoint skip_int_space (s : string) : string :=
  match s with
  | EmptyString => EmptyString
  | String c s' => if int_space c then skip_int_space s' else s
  end.

(** The digits of a numeral, which single underscores may separate, up
    to the blanks that end the line. *)
Fixpoint read_digits (s : string) (acc : Z) (after_digit : bool) : option Z :=
  match s with
  | EmptyString => if after_digit then Some acc else None
  | String c s' =>
      if is_digit c
      then read_digits s' (10 * acc + Z.of_nat (nat_of_ascii c - 48))%Z true
      else if (Ascii.eqb c "_" && after_digit)%bool then read_digits s' acc false
      else if (int_space c && after_digit && all_chars int_space s')%bool
      then Some acc
      else None
  end.

Fixpoint count_digits (s : string) : nat :=
  match s with
  | EmptyString => 0
  | String c s' => (if is_digit c then 1 else 0) + count_digits s'
  end.

(** [int] on ASCII text, as CPython reads it with its default limit of
    4300 digits: blanks around, a sign, and the digits. *)
Definition decimal_int : IntParser := fun s =>
  if (4300 <? count_digits s)%nat then None
  else
    match skip_int_space s with
    | String "+" numeral => read_digits numeral 0 false
    | String "-" numeral => Z.opp <$> read_digits numeral 0 false
    | numeral => read_digits numeral 0 false
    end.

(** Two states of one session: the same queue, lists and loaded emails,
    and dictionaries that differ in [status] and [generated_response] at
    most. *)
Definition same_session (st st' : system) : Prop :=
  emails st' = emails st /\
  processed_emails st' = processed_emails st /\
  priority_queue st' = priority_queue st /\
  email_counter st' = email_counter st /\
  forall r, option_Forall2 same_but_workflow (store st !! r) (store st' !! r).

(** The emails of a listing in its order, each named by its
    [processing_id]: which email stands at which number. *)
Definition numbering (items : list processed_email) : list nat :=
  map processing_id items.

(** The listings of a session show the emails under the numbers they have
    in the listings of the state [st]. *)
Definition numbered_as (st : system) (screens : list screen) : Prop :=
  Forall (fun s => match s with
                   | Listing f items =>
                       numbering items = numbering (display_emails st f)
                   | _ => True
                   end) screens.

(** A session that went well from the state [st]: its listings number the
    emails as [st] does, and it ended by returning or for lack of input,
    in a consistent state of the same session. *)
Definition good_session (st : system) (r : list screen * ending) : Prop :=
  numbered_as st (fst r) /\
  exists st',
    (snd r = Returned st' \/ snd r = End_of_input st') /\
    consistent st' /\ same_session st st'.

(** The lines of a session: the full listing, the detail of the second
    email marked resolved, the statistics, a wrong number, and the exit. *)
Definition sample_inputs : list string :=
  ["1"; "4"; "2"; "1"; "3"; "4"; "two"; " 5 "; "1"].

(* ===================================================================== *)
(** * Properties of the text primitives *)
(* ===================================================================== *)

Section TextFacts.

Lemma count_present_from (kws : list string) (text : string) (acc : Z) :
  fold_left (fun acc kw => if contains kw text then (acc + 1)%Z else acc) kws acc
  = (acc + Z.of_nat (length (List.filter (fun kw => contains kw text) kws)))%Z.
Proof.
  revert acc. induction kws as [|kw kws IH]; intros acc; simpl.
  - lia.
  - rewrite IH. destruct (contains kw text); simpl length; lia.
Qed.

Lemma count_present_length (kws : list string) (text : string) :
  count_present kws text
  = Z.of_nat (length (List.filter (fun kw => contains kw text) kws)).
Proof. unfold count_present. rewrite count_present_from. lia. Qed.

Lemma count_present_nonneg (kws : list string) (text : string) :
  (0 <= count_present kws text)%Z.
Proof. rewrite count_present_length. lia. Qed.

Lemma findall_from_nil_iff (p : Re.pattern) (s : string) (prev : option ascii) :
  Re.findall_from p prev 0 s = [] <-> Re.has_match_from p prev s = false.
Proof.
  revert prev. induction s as [|c s IH]; intros prev; simpl.
  - split; reflexivity.
  - destruct (Re.match_at p prev (String c s)) as [[|n]|]; try apply IH.
    split; discriminate.
Qed.

Lemma findall_nil_iff (p : Re.pattern) (s : string) :
  Re.findall p s = [] <-> Re.has_match p s = false.
Proof. apply findall_from_nil_iff. Qed.

End TextFacts.

(* ===================================================================== *)
(** * Properties of the matcher *)
(* ===================================================================== *)

Section Matcher.

Lemma run_length_all (cls : ascii -> bool) (hi : option nat) (s : string) (k : nat) :
  k <= Re.run_length cls hi s -> all_chars cls (Re.take_chars k s) = true.
Proof.
  revert hi k. induction s as [|c s IH]; intros hi k Hk.
  - destruct k; [reflexivity|]. destruct hi as [[|h]|]; simpl in Hk; lia.
  - destruct k as [|k]; [reflexivity|].
    assert (Hstep : cls c = true /\ k <= Re.run_length cls (pred <$> hi) s).
    { destruct hi as [[|h]|]; simpl in Hk; try lia;
        destruct (cls c); try lia; split; try reflexivity; simpl; lia. }
    destruct Hstep as [Hc Hrest]. simpl. rewrite Hc. exact (IH _ _ Hrest).
Qed.

Lemma run_length_max (cls : ascii -> bool) (hi : option nat) (s : string) (k : nat) :
  k <= String.length s -> (forall h, hi = Some h -> k <= h) ->
  all_chars cls (Re.take_chars k s) = true ->
  k <= Re.run_length cls hi s.
Proof.
  revert hi k. induction s as [|c s IH]; intros hi k Hlen Hcap Hall.
  - simpl in Hlen. lia.
  - destruct k as [|k]; [lia|]. simpl in Hall, Hlen.
    apply andb_true_iff in Hall as [Hc Hall].
    assert (Hrest : k <= Re.run_length cls (pred <$> hi) s).
    { apply IH; [lia | | exact Hall].
      intros h Hh. destruct hi as [h0|]; [|discriminate].
      simpl in Hh. injection Hh as <-. specialize (Hcap h0 eq_refl). lia. }
    destruct hi as [[|h]|]; simpl in Hrest; simpl; rewrite ?Hc; try lia.
    specialize (Hcap 0 eq_refl). lia.
Qed.

Lemma run_length_bounds (cls : ascii -> bool) (hi : option nat) (s : string) :
  Re.run_length cls hi s <= String.length s /\
  (forall h, hi = Some h -> Re.run_length cls hi s <= h).
Proof.
  revert hi. induction s as [|c s IH]; intros hi.
  - destruct hi as [[|h]|]; simpl; split; intros; lia.
  - destruct (IH (pred <$> hi)) as [Hlen Hcap].
    destruct hi as [[|h]|]; simpl in *; destruct (cls c); split;
      try lia; intros h' Hh'; try lia; try discriminate.
    injection Hh' as <-. specialize (Hcap h eq_refl). lia.
Qed.

Lemma backtrack_some (rest : nat -> option nat) (lo n m : nat) :
  Re.backtrack rest lo n = Some m ->
  exists k m', lo <= k <= n /\ rest k = Some m' /\ m = k + m'.
Proof.
  induction n as [|n IH]; cbn [Re.backtrack].
  - destruct (Nat.ltb_spec 0 lo); [discriminate|].
    destruct (rest 0) as [m'|] eqn:Hr; [|discriminate].
    intros [= <-]. exists 0, m'. split; [lia | auto].
  - destruct (Nat.ltb_spec (S n) lo); [discriminate|].
    destruct (rest (S n)) as [m'|] eqn:Hr.
    + intros [= <-]. exists (S n), m'. split; [lia | auto].
    + intros Hb. destruct (IH Hb) as (k & m' & Hk & Hrest & ->).
      exists k, m'. split; [lia | auto].
Qed.

Lemma backtrack_complete (rest : nat -> option nat) (lo n k m' : nat) :
  lo <= k <= n -> rest k = Some m' -> exists m, Re.backtrack rest lo n = Some m.
Proof.
  intros Hk Hrest. induction n as [|n IH]; cbn [Re.backtrack].
  - assert (k = 0) by lia. subst k.
    destruct (Nat.ltb_spec 0 lo); [lia|]. rewrite Hrest. eauto.
  - destruct (Nat.ltb_spec (S n) lo); [lia|].
    destruct (rest (S n)) as [m|] eqn:Hr; [eauto|].
    apply IH. destruct (decide (k = S n)) as [->|]; [congruence | lia].
Qed.

(** The matcher finds only matches, and finds one wherever there is one. *)
Lemma match_at_sound (p : Re.pattern) (prev : option ascii) (s : string) (n : nat) :
  Re.match_at p prev s = Some n -> Re.matches p prev s n.
Proof.
  revert prev s n. induction p as [|[|cls lo hi] p IH]; intros prev s n; simpl.
  - intros [= <-]. constructor.
  - destruct (Re.at_boundary prev s) eqn:Hb; [|discriminate].
    intros Hm. constructor; [exact Hb | apply IH, Hm].
  - intros Hm. apply backtrack_some in Hm as (k & m' & Hk & Hrest & ->).
    destruct (run_length_bounds cls hi s) as [Hlen Hcap].
    constructor; try lia.
    + intros h Hh. specialize (Hcap h Hh). lia.
    + apply (run_length_all cls hi). lia.
    + apply IH, Hrest.
Qed.

Lemma match_at_complete (p : Re.pattern) (prev : option ascii) (s : string) (n : nat) :
  Re.matches p prev s n -> exists n', Re.match_at p prev s = Some n'.
Proof.
  induction 1 as [prev s|p prev s n Hb _ IH|cls lo hi p prev s k n Hlo Hhi Hlen Hall _ IH];
    simpl.
  - eauto.
  - rewrite Hb. exact IH.
  - destruct IH as [n' Hn'].
    apply (backtrack_complete _ lo _ k n'); [|exact Hn'].
    split; [exact Hlo|]. apply run_length_max; assumption.
Qed.

Lemma matches_min_length (p : Re.pattern) (prev : option ascii) (s : string) (n : nat) :
  Re.matches p prev s n -> Re.min_length p <= n.
Proof. induction 1; simpl; lia. Qed.

Lemma match_at_min_length (p : Re.pattern) (prev : option ascii) (s : string) (n : nat) :
  Re.match_at p prev s = Some n -> Re.min_length p <= n.
Proof. intros Hm. eapply matches_min_length, match_at_sound, Hm. Qed.

(** A match is found in the text exactly when the pattern matches at one
    of its positions. *)
Lemma has_match_from_position (p : Re.pattern) (s : string) (prev : option ascii) :
  Re.has_match_from p prev s = true <->
  exists k n, k < String.length s /\
              Re.match_at p (Re.prev_after k prev s) (Re.drop_chars k s) = Some (S n).
Proof.
  revert prev. induction s as [|c s IH]; intros prev.
  - simpl. split; [discriminate|]. intros (k & n & Hk & _). lia.
  - cbn [Re.has_match_from].
    destruct (Re.match_at p prev (String c s)) as [[|n]|] eqn:Hm.
    + rewrite IH. split.
      * intros (k & n & Hk & Hn). exists (S k), n. split; [simpl; lia|].
        destruct k; exact Hn.
      * intros ([|k] & n & Hk & Hn); [simpl in Hn; congruence|].
        exists k, n. split; [simpl in Hk; lia|]. destruct k; exact Hn.
    + split; [|reflexivity]. intros _. exists 0, n. split; [simpl; lia | exact Hm].
    + rewrite IH. split.
      * intros (k & n & Hk & Hn). exists (S k), n. split; [simpl; lia|].
        destruct k; exact Hn.
      * intros ([|k] & n & Hk & Hn); [simpl in Hn; congruence|].
        exists k, n. split; [simpl in Hk; lia|]. destruct k; exact Hn.
Qed.

Lemma has_match_position (p : Re.pattern) (s : string) :
  0 < Re.min_length p ->
  Re.has_match p s = true <->
  exists k n, k < String.length s /\
              Re.matches p (Re.prev_after k None s) (Re.drop_chars k s) n.
Proof.
  intros Hmin. unfold Re.has_match. rewrite has_match_from_position. split.
  - intros (k & n & Hk & Hn). exists k, (S n).
    split; [exact Hk | apply match_at_sound, Hn].
  - intros (k & n & Hk & Hn).
    destruct (match_at_complete _ _ _ _ Hn) as [[|n'] Hn'].
    + apply match_at_min_length in Hn'. lia.
    + exists k, n'. split; [exact Hk | exact Hn'].
Qed.

End Matcher.

(* ===================================================================== *)
(** * extract_information: the alternate addresses *)
(* ===================================================================== *)

Section Extraction.
Context `{SentimentAnalyzer}.

Lemma alternates_raises (found : list string) :
  found <> [] -> alternates found = Raise TypeError.
Proof. destruct found; [congruence | reflexivity]. Qed.

Lemma extract_information_no_address (e : email) :
  Re.has_match email_pattern (spaced (subject e) (body e)) = false ->
  exists i, extract_information e = Ok i /\ alternate_emails i = [].
Proof.
  intros Hno. apply findall_nil_iff in Hno.
  unfold extract_information. rewrite Hno. simpl. eexists; split; reflexivity.
Qed.

Lemma extract_information_address (e : email) :
  Re.has_match email_pattern (spaced (subject e) (body e)) = true ->
  extract_information e = Raise TypeError.
Proof.
  intros Hyes. unfold extract_information.
  rewrite alternates_raises; [reflexivity|].
  intros Hnil. apply findall_nil_iff in Hnil. congruence.
Qed.

(** C9. [extract_information] returns a result exactly on the emails
    whose subject and body hold no match of the address pattern. The text
    holds a match when the pattern matches at one of its positions, which
    is when [re.findall] finds an address; then the comparison
    [email != email['sender']] indexes the matched string by ['sender']
    and the call ends in a [TypeError]. Without a match the signals are
    returned, and the alternate addresses are empty. *)
Theorem extract_information_total_iff_no_address (e : email) :
  let text := spaced (subject e) (body e) in
  (Re.has_match email_pattern text = true <->
   exists k n, k < String.length text /\
               Re.matches email_pattern (Re.prev_after k None text)
                          (Re.drop_chars k text) n) /\
  (Re.has_match email_pattern text = true <-> Re.findall email_pattern text <> []) /\
  extract_information e =
    if Re.has_match email_pattern text then Raise TypeError
    else Ok {| phone_numbers := Re.findall phone_pattern text;
               alternate_emails := [];
               requirements :=
                 take 3 (collect_requirements (Re.split (Re.one_of ".!?") text));
               info_sentiment := fst (analyze_sentiment text) |}.
Proof.
  intros text. subst text. split; [|split].
  - apply has_match_position. simpl. lia.
  - pose proof (findall_nil_iff email_pattern (spaced (subject e) (body e))) as Hnil.
    destruct (Re.has_match email_pattern (spaced (subject e) (body e))).
    + split; [|reflexivity]. intros _ Hf. apply Hnil in Hf. discriminate.
    + split; [discriminate|]. intros Hf. exfalso. apply Hf, Hnil. reflexivity.
  - destruct (Re.has_match email_pattern (spaced (subject e) (body e))) eqn:Hm.
    + apply extract_information_address, Hm.
    + apply findall_nil_iff in Hm. unfold extract_information.
      rewrite Hm. reflexivity.
Qed.

End Extraction.

(** C1. On an email with addresses in its text the alternate addresses
    are never computed: the matches of [mail_with_addresses] are the
    sender's address and one other, the specification keeps the other,
    and [extract_information] ends in a [TypeError] whatever the
    analyser. *)
Theorem alternate_emails_not_returned `{SentimentAnalyzer} :
  let text := spaced (subject mail_with_addresses) (body mail_with_addresses) in
  Re.findall email_pattern text = ["bob@example.com"; "carol@example.com"] /\
  alternates_spec (sender mail_with_addresses) (Re.findall email_pattern text)
    = ["carol@example.com"] /\
  extract_information mail_with_addresses = Raise TypeError.
Proof.
  intros text. subst text. split; [|split].
  - vm_compute. reflexivity.
  - vm_compute. reflexivity.
  - apply extract_information_address. vm_compute. reflexivity.
Qed.

(* ===================================================================== *)
(** * determine_priority *)
(* ===================================================================== *)

Section Priority.
Context `{SentimentAnalyzer}.

Lemma Qlt_bool_hours (now : Z) (e : email) (n : Z) :
  Qlt_bool (hours_old now e) (inject_Z n) = (now - sent_date e <? n * hour)%Z.
Proof.
  unfold Qlt_bool, Qle_bool, hours_old, inject_Z, hour. simpl Qnum. simpl Qden.
  rewrite Z.mul_1_r.
  destruct (Z.leb_spec (n * 3600000000) (now - sent_date e));
    destruct (Z.ltb_spec (now - sent_date e) (n * 3600000000)); simpl; try reflexivity; lia.
Qed.

Lemma analyze_sentiment_label (text : string) :
  fst (analyze_sentiment text) =
    if Qle_bool (5 # 100) (polarity_compound text) then Positive
    else if Qle_bool (polarity_compound text) (- (5 # 100)) then Negative
    else Neutral.
Proof.
  unfold analyze_sentiment.
  destruct (Qle_bool (5 # 100) (polarity_compound text)); [reflexivity|].
  destruct (Qle_bool (polarity_compound text) (- (5 # 100))); reflexivity.
Qed.

Lemma determine_priority_eq (now : Z) (e : email) :
  let text := lower (spaced (subject e) (body e)) in
  let score := (count_present priority_keywords text
                + sentiment_adjustment (fst (analyze_sentiment text))
                + recency_bonus now e)%Z in
  determine_priority now e = (if (3 <=? score)%Z then Urgent else Not_urgent, score).
Proof.
  intros text score. subst score. unfold determine_priority. fold text.
  destruct (analyze_sentiment text) as [label compound]. simpl fst.
  change 1%Q with (inject_Z 1). change 4%Q with (inject_Z 4).
  change 12%Q with (inject_Z 12).
  rewrite !Qlt_bool_hours. unfold recency_bonus.
  destruct label; simpl sentiment_adjustment;
    destruct (now - sent_date e <? 1 * hour)%Z;
    destruct (now - sent_date e <? 4 * hour)%Z;
    destruct (now - sent_date e <? 12 * hour)%Z;
    rewrite ?Z.add_0_r; try reflexivity;
    repeat match goal with
    | |- context [(?a + -1)%Z] => replace (a + -1)%Z with (a - 1)%Z by lia
    end; reflexivity.
Qed.

(** C4. The urgency score of [determine_priority] is the number of
    priority keywords that occur in the lowercased subject and body, plus
    2 for a Negative sentiment, minus 1 for a Positive one, plus the
    recency bonus (3 under one hour of age, 2 under four, 1 under twelve,
    0 otherwise), and the label is Urgent exactly when the score is 3 or
    more. *)
Theorem determine_priority_formula (now : Z) (e : email) :
  let text := lower (spaced (subject e) (body e)) in
  let base := Z.of_nat (length (List.filter (fun kw => contains kw text)
                                            priority_keywords)) in
  let score := (base + sentiment_adjustment (fst (analyze_sentiment text))
                + recency_bonus now e)%Z in
  snd (determine_priority now e) = score /\
  (fst (determine_priority now e) = Urgent <-> (3 <= score)%Z) /\
  (fst (determine_priority now e) = Not_urgent <-> (score < 3)%Z).
Proof.
  intros text base score. subst base score.
  rewrite determine_priority_eq. fold text.
  rewrite <- count_present_length. simpl fst. simpl snd.
  split; [reflexivity|].
  destruct (Z.leb_spec 3 (count_present priority_keywords text
                          + sentiment_adjustment (fst (analyze_sentiment text))
                          + recency_bonus now e)) as [Hle|Hlt].
  - split; split; intros; try reflexivity; try discriminate; try assumption. lia.
  - split; split; intros; try reflexivity; try discriminate; try assumption. lia.
Qed.

End Priority.

(* ===================================================================== *)
(** * categorize_email *)
(* ===================================================================== *)

Section Categories.

Lemma fold_max_first {A : Type} (key : A -> Z) (xs : list A) (x : A) :
  exists i,
    (x :: xs) !! i
      = Some (fold_left (fun best y => if (key best <? key y)%Z then y else best) xs x) /\
    (forall j y, (x :: xs) !! j = Some y ->
       (key y <= key (fold_left (fun best y => if (key best <? key y)%Z then y else best) xs x))%Z) /\
    (forall j y, j < i -> (x :: xs) !! j = Some y ->
       (key y < key (fold_left (fun best y => if (key best <? key y)%Z then y else best) xs x))%Z).
Proof.
  revert x. induction xs as [|a xs IH]; intros x.
  - exists 0. simpl. split; [reflexivity|]. split.
    + intros [|j] y Hj; simpl in Hj; [injection Hj as <-; lia | discriminate].
    + intros j y Hlt. lia.
  - simpl fold_left.
    destruct (IH (if (key x <? key a)%Z then a else x)) as (i & Hi & Hmax & Hfirst).
    set (r := fold_left _ xs _) in *.
    destruct (Z.ltb_spec (key x) (key a)) as [Hxa|Hax].
    + exists (S i). split; [exact Hi|]. split.
      * intros [|j] y Hj; [|exact (Hmax j y Hj)].
        injection Hj as <-. specialize (Hmax 0 a eq_refl). lia.
      * intros [|j] y Hlt Hj.
        -- injection Hj as <-. specialize (Hmax 0 a eq_refl). lia.
        -- apply (Hfirst j y); [lia | exact Hj].
    + destruct i as [|i].
      * exists 0. split; [exact Hi|]. split.
        -- intros [|[|j]] y Hj.
           ++ exact (Hmax 0 y Hj).
           ++ injection Hj as <-. simpl in Hi. injection Hi as Hr. rewrite <- Hr. lia.
           ++ exact (Hmax (S j) y Hj).
        -- intros j y Hlt. lia.
      * exists (S (S i)). split; [exact Hi|]. split.
        -- intros [|[|j]] y Hj.
           ++ exact (Hmax 0 y Hj).
           ++ injection Hj as <-. specialize (Hfirst 0 x ltac:(lia) eq_refl). lia.
           ++ exact (Hmax (S j) y Hj).
        -- intros [|[|j]] y Hlt Hj.
           ++ exact (Hfirst 0 y ltac:(lia) Hj).
           ++ injection Hj as <-. specialize (Hfirst 0 x ltac:(lia) eq_refl). lia.
           ++ apply (Hfirst (S j) y); [lia | exact Hj].
Qed.

Lemma py_max_first {A : Type} (key : A -> Z) (l : list A) :
  l <> [] ->
  exists i r, py_max key l = Some r /\ l !! i = Some r /\
    (forall j y, l !! j = Some y -> (key y <= key r)%Z) /\
    (forall j y, j < i -> l !! j = Some y -> (key y < key r)%Z).
Proof.
  destruct l as [|x xs]; [congruence|]. intros _.
  destruct (fold_max_first key xs x) as (i & Hi & Hmax & Hfirst).
  exists i. eexists. split; [reflexivity|]. auto.
Qed.

Lemma category_scores_names (text : string) :
  map fst (category_scores text) = ["account_issues"; "billing"; "technical"; "general"].
Proof. reflexivity. Qed.

Lemma categorize_email_first (e : email) :
  exists i s,
    category_scores (lower (spaced (subject e) (body e))) !! i
      = Some (categorize_email e, s) /\
    (forall j c' s',
       category_scores (lower (spaced (subject e) (body e))) !! j = Some (c', s') ->
       (s' <= s)%Z) /\
    (forall j c' s', j < i ->
       category_scores (lower (spaced (subject e) (body e))) !! j = Some (c', s') ->
       (s' < s)%Z).
Proof.
  unfold categorize_email.
  set (scores := category_scores _).
  destruct (py_max_first snd scores) as (i & [c s] & Hmax & Hi & Hle & Hlt).
  { subst scores. discriminate. }
  rewrite Hmax. exists i, s. split; [exact Hi|]. split.
  - intros j c' s' Hj. exact (Hle j (c', s') Hj).
  - intros j c' s' Hji Hj. exact (Hlt j (c', s') Hji Hj).
Qed.

Lemma categorize_email_cases (e : email) :
  categorize_email e = "account_issues" \/ categorize_email e = "billing" \/
  categorize_email e = "technical" \/ categorize_email e = "general".
Proof.
  destruct (categorize_email_first e) as (i & s & Hi & _).
  apply (f_equal (fmap fst)) in Hi. rewrite <- list_lookup_fmap in Hi.
  change (fst <$> category_scores (lower (spaced (subject e) (body e))))
    with ["account_issues"; "billing"; "technical"; "general"] in Hi.
  simpl in Hi.
  destruct i as [|[|[|[|i]]]]; simpl in Hi; try discriminate;
    injection Hi as Hi; rewrite <- Hi; auto.
Qed.

(** C5. [categorize_email] returns the first category, in the order
    account_issues, billing, technical, general, whose score is maximal:
    every score is at most the score of the returned category and every
    category before it scores strictly less. When the four scores are
    equal (all zero included) the result is account_issues. *)
Theorem categorize_email_tie_break (e : email) :
  let scores := category_scores (lower (spaced (subject e) (body e))) in
  map fst scores = ["account_issues"; "billing"; "technical"; "general"] /\
  (exists i s,
     scores !! i = Some (categorize_email e, s) /\
     (forall j c' s', scores !! j = Some (c', s') -> (s' <= s)%Z) /\
     (forall j c' s', j < i -> scores !! j = Some (c', s') -> (s' < s)%Z)) /\
  ((forall j k c s c' s',
      scores !! j = Some (c, s) -> scores !! k = Some (c', s') -> s = s') ->
   categorize_email e = "account_issues").
Proof.
  intros scores. split; [reflexivity|]. split.
  - apply categorize_email_first.
  - intros Htie.
    destruct (categorize_email_first e) as (i & s & Hi & _ & Hlt).
    fold scores in Hi, Hlt.
    destruct i as [|i].
    + apply (f_equal (fmap fst)) in Hi. simpl in Hi. injection Hi as Hi. symmetry. exact Hi.
    + destruct (scores !! 0) as [[c0 s0]|] eqn:H0; [|discriminate].
      pose proof (Hlt 0 c0 s0 ltac:(lia) H0) as Hstrict.
      pose proof (Htie 0 (S i) _ _ _ _ H0 Hi). lia.
Qed.

End Categories.

(* ===================================================================== *)
(** * generate_response *)
(* ===================================================================== *)

Section Responses.

Lemma knowledge_base_entries (k v : string) :
  knowledge_base !! k = Some v ->
  In k ["account_verification"; "login_issues"; "billing_errors";
        "api_integration"; "subscription"; "password_reset"] /\
  v = default fallback (knowledge_base !! k).
Proof.
  intros Hk. split; [|rewrite Hk; reflexivity].
  apply elem_of_list_to_map_2 in Hk.
  repeat (apply elem_of_cons in Hk as [Hk|Hk];
          [injection Hk as -> _; simpl; tauto|]).
  apply elem_of_nil in Hk. destruct Hk.
Qed.

Lemma category_not_in_knowledge_base (e : email) :
  knowledge_base !! categorize_email e = None.
Proof.
  destruct (categorize_email_cases e) as [Hc|[Hc|[Hc|Hc]]]; rewrite Hc;
    vm_compute; reflexivity.
Qed.

(** C8. The category of an email is one of account_issues, billing,
    technical and general, none of which is a key of the knowledge base;
    so the response of [generate_response] carries the generic sentence
    and no entry of the knowledge base. *)
Theorem generate_response_always_fallback (e : email) (extracted : extracted_info) :
  In (categorize_email e) ["account_issues"; "billing"; "technical"; "general"] /\
  knowledge_base !! categorize_email e = None /\
  contains fallback (generate_response e extracted) = true /\
  (forall k v, knowledge_base !! k = Some v ->
     In k ["account_verification"; "login_issues"; "billing_errors";
           "api_integration"; "subscription"; "password_reset"] /\
     contains v (generate_response e extracted) = false).
Proof.
  split; [|split; [|split]].
  - destruct (categorize_email_cases e) as [Hc|[Hc|[Hc|Hc]]]; rewrite Hc; simpl; tauto.
  - apply category_not_in_knowledge_base.
  - unfold generate_response.
    destruct (categorize_email_cases e) as [Hc|[Hc|[Hc|Hc]]]; rewrite Hc;
      destruct (info_sentiment extracted); vm_compute; reflexivity.
  - intros k v Hk. destruct (knowledge_base_entries k v Hk) as [Hin ->].
    split; [exact Hin|]. clear Hk. unfold generate_response.
    simpl in Hin.
    destruct Hin as [<-|[<-|[<-|[<-|[<-|[<-|[]]]]]]];
      destruct (categorize_email_cases e) as [Hc|[Hc|[Hc|Hc]]]; rewrite Hc;
      destruct (info_sentiment extracted); vm_compute; reflexivity.
Qed.

End Responses.

(* ===================================================================== *)
(** * extract_information: the requirements *)
(* ===================================================================== *)

Section Requirements.

Lemma split_not_nil (cls : ascii -> bool) (s : string) : Re.split cls s <> [].
Proof.
  induction s as [|c s IH]; simpl; [discriminate|].
  destruct (cls c); [discriminate|].
  destruct (Re.split cls s); [congruence | discriminate].
Qed.

Lemma split_rejoin (cls : ascii -> bool) (s : string) :
  Re.rejoin (Re.split cls s) (Re.separators cls s) = s.
Proof.
  induction s as [|c s IH]; simpl; [reflexivity|].
  destruct (cls c) eqn:Hc.
  - simpl. rewrite IH. reflexivity.
  - pose proof (split_not_nil cls s) as Hne.
    destruct (Re.split cls s) as [|piece pieces]; [congruence|].
    destruct (Re.separators cls s) as [|sep seps]; simpl in *; rewrite <- IH; reflexivity.
Qed.

Lemma split_pieces_clean (cls : ascii -> bool) (s : string) :
  Forall (fun piece => all_chars (fun c => negb (cls c)) piece = true) (Re.split cls s).
Proof.
  induction s as [|c s IH]; simpl.
  - constructor; [reflexivity | constructor].
  - destruct (cls c) eqn:Hc.
    + constructor; [reflexivity | exact IH].
    + pose proof (split_not_nil cls s) as Hne.
      destruct (Re.split cls s) as [|piece pieces]; [congruence|].
      inversion IH as [|? ? Hp Hps]; subst.
      constructor; [|exact Hps]. simpl. rewrite Hc, Hp. reflexivity.
Qed.

Lemma split_length (cls : ascii -> bool) (s : string) :
  length (Re.split cls s) = S (length (Re.separators cls s)).
Proof.
  induction s as [|c s IH]; simpl; [reflexivity|].
  destruct (cls c); simpl; [rewrite IH; reflexivity|].
  pose proof (split_not_nil cls s) as Hne.
  destruct (Re.split cls s) as [|piece pieces]; [congruence|]. exact IH.
Qed.

Lemma collect_requirements_from (sentences reqs : list string) :
  fold_left
    (fun reqs sentence =>
       if any_in requirement_keywords (lower sentence) then (reqs ++ [strip sentence])%list
       else reqs)
    sentences reqs
  = (reqs ++ map strip (List.filter (fun s => any_in requirement_keywords (lower s))
                                    sentences))%list.
Proof.
  revert reqs.
  induction sentences as [|s sentences IH]; intros reqs; cbn [fold_left List.filter].
  - simpl. rewrite app_nil_r. reflexivity.
  - rewrite IH. destruct (any_in requirement_keywords (lower s)); [|reflexivity].
    cbn [map]. rewrite <- app_assoc. reflexivity.
Qed.

Lemma collect_requirements_filter (sentences : list string) :
  collect_requirements sentences
  = map strip (List.filter (fun s => any_in requirement_keywords (lower s)) sentences).
Proof. unfold collect_requirements. apply collect_requirements_from. Qed.

(** Trimming and lowercasing commute, and trimming keeps an occurrence of
    a word that neither starts nor ends with a space. *)
Lemma is_space_lower_char (c : ascii) : is_space (lower_char c) = is_space c.
Proof.
  destruct c as [[] [] [] [] [] [] [] []]; vm_compute; reflexivity.
Qed.

Lemma lower_lstrip (s : string) : lower (lstrip s) = lstrip (lower s).
Proof.
  induction s as [|c s IH]; simpl; [reflexivity|].
  rewrite is_space_lower_char. destruct (is_space c); [exact IH | reflexivity].
Qed.

Lemma lower_rstrip (s : string) : lower (rstrip s) = rstrip (lower s).
Proof.
  induction s as [|c s IH]; simpl; [reflexivity|].
  rewrite <- IH, is_space_lower_char.
  destruct (rstrip s); simpl; [destruct (is_space c)|]; reflexivity.
Qed.

Lemma lower_strip (s : string) : lower (strip s) = strip (lower s).
Proof. unfold strip. rewrite lower_rstrip, lower_lstrip. reflexivity. Qed.

Lemma contains_nonempty (kw t : string) :
  kw <> EmptyString -> contains kw t = true -> t <> EmptyString.
Proof.
  intros Hkw Hc ->. destruct kw; [congruence | discriminate].
Qed.

Lemma prefix_nonempty (kw t : string) :
  kw <> EmptyString -> String.prefix kw t = true -> t <> EmptyString.
Proof.
  intros Hkw Hc ->. destruct kw; [congruence | discriminate].
Qed.

Lemma contains_lstrip (c : ascii) (kw t : string) :
  is_space c = false ->
  contains (String c kw) t = true -> contains (String c kw) (lstrip t) = true.
Proof.
  intros Hc. induction t as [|a t IH]; [trivial|]. intros Hin.
  simpl lstrip. destruct (is_space a) eqn:Ha; [|exact Hin].
  apply IH. simpl in Hin. apply orb_true_iff in Hin as [Hp|Hin]; [|exact Hin].
  destruct (ascii_dec c a) as [->|Hne]; congruence.
Qed.

Lemma prefix_rstrip (kw t : string) (z : ascii) :
  last_char kw = Some z -> is_space z = false ->
  String.prefix kw t = true -> String.prefix kw (rstrip t) = true.
Proof.
  revert kw. induction t as [|a t IH]; intros kw Hlast Hz Hp; [exact Hp|].
  destruct kw as [|c kw]; [discriminate|].
  simpl in Hp. destruct (ascii_dec c a) as [->|Hne]; [|discriminate].
  destruct kw as [|c' kw].
  - simpl in Hlast. injection Hlast as ->. simpl.
    destruct (rstrip t); [rewrite Hz|]; simpl;
      destruct (ascii_dec z z); congruence.
  - assert (Hlast' : last_char (String c' kw) = Some z) by exact Hlast.
    pose proof (IH _ Hlast' Hz Hp) as Hr.
    pose proof (prefix_nonempty (String c' kw) (rstrip t) ltac:(easy) Hr) as Hne.
    simpl rstrip. destruct (rstrip t) as [|b r]; [congruence|].
    simpl. destruct (ascii_dec a a); [exact Hr | congruence].
Qed.

Lemma contains_rstrip (kw t : string) (z : ascii) :
  last_char kw = Some z -> is_space z = false ->
  contains kw t = true -> contains kw (rstrip t) = true.
Proof.
  intros Hlast Hz. assert (Hkw : kw <> EmptyString) by (intros ->; discriminate).
  induction t as [|a t IH]; intros Hin; [exact Hin|].
  cbn [contains] in Hin. apply orb_true_iff in Hin as [Hp|Hin].
  - pose proof (prefix_rstrip _ _ _ Hlast Hz Hp) as Hr.
    destruct (rstrip (String a t)); cbn [contains]; rewrite Hr; reflexivity.
  - pose proof (IH Hin) as Hr.
    pose proof (contains_nonempty _ _ Hkw Hr) as Hne.
    simpl rstrip. destruct (rstrip t) as [|b r]; [congruence|].
    cbn [contains]. cbn [contains] in Hr. rewrite Hr. apply orb_true_r.
Qed.

Lemma requirement_keyword_survives_strip (s : string) :
  any_in requirement_keywords (lower s) = true ->
  any_in requirement_keywords (lower (strip s)) = true.
Proof.
  unfold any_in. rewrite !existsb_exists. intros (kw & Hkw & Hin).
  exists kw. split; [exact Hkw|]. rewrite lower_strip. unfold strip.
  simpl in Hkw.
  destruct Hkw as [<-|[<-|[<-|[<-|[<-|[]]]]]];
    (eapply contains_rstrip; [reflexivity | reflexivity |]);
    (apply contains_lstrip; [reflexivity | exact Hin]).
Qed.

End Requirements.

Section RequirementsOfAnEmail.
Context `{SentimentAnalyzer}.

Lemma extract_information_requirements (e : email) (i : extracted_info) :
  extract_information e = Ok i ->
  requirements i
  = take 3 (map strip (List.filter (fun s => any_in requirement_keywords (lower s))
                         (Re.split (Re.one_of ".!?") (spaced (subject e) (body e))))).
Proof.
  unfold extract_information. intros Hi.
  destruct (alternates _) as [alts|x]; [|discriminate].
  simpl in Hi. injection Hi as <-. simpl requirements.
  rewrite collect_requirements_filter. reflexivity.
Qed.

(** The sentences are the pieces of the subject and body between the
    characters [.], [!] and [?]. When [extract_information] returns, its
    requirements are the first three (or fewer) of the trimmed sentences
    that hold a requirement keyword once lowercased, in the order of the
    text; each entry holds such a keyword itself. The call returns on
    every email without an address match, and on no other. *)
Lemma requirements_first_three (e : email) :
  let text := spaced (subject e) (body e) in
  let sentences := Re.split (Re.one_of ".!?") text in
  let wanted := fun s => any_in requirement_keywords (lower s) in
  Re.rejoin sentences (Re.separators (Re.one_of ".!?") text) = text /\
  Forall (fun s => all_chars (fun c => negb (Re.one_of ".!?" c)) s = true) sentences /\
  match extract_information e with
  | Ok i =>
      length (requirements i) <= 3 /\
      requirements i = take 3 (map strip (List.filter wanted sentences)) /\
      Forall (fun r => wanted r = true /\
                       exists s, In s sentences /\ wanted s = true /\ r = strip s)
             (requirements i)
  | Raise _ => Re.has_match email_pattern text = true
  end.
Proof.
  intros text sentences wanted.
  split; [apply split_rejoin|]. split; [apply split_pieces_clean|].
  destruct (extract_information e) as [i|x] eqn:Hi.
  - pose proof (extract_information_requirements e i Hi) as Hreq.
    fold text in Hreq. fold sentences in Hreq. fold wanted in Hreq.
    split; [|split; [exact Hreq|]].
    + rewrite Hreq, length_take. lia.
    + rewrite Hreq. apply Forall_forall. intros r Hr.
      apply subseteq_take in Hr.
      apply list_elem_of_In, in_map_iff in Hr as (s & <- & Hs).
      apply filter_In in Hs as [Hs Hw]. split.
      * apply requirement_keyword_survives_strip, Hw.
      * exists s. auto.
  - destruct (Re.has_match email_pattern text) eqn:Hm; [reflexivity|].
    destruct (extract_information_no_address e Hm) as (i & Hok & _). congruence.
Qed.

(** C6. On an email with an address in its text no requirements are
    returned. The text of [mail_with_addresses] splits into three
    sentences, the first one holds "help with", and the specification
    keeps it, trimmed, as the one requirement; [extract_information] ends
    in a [TypeError] whatever the analyser, and it does so on every email
    whose text holds an address, whatever its sentences. *)
Theorem requirements_not_returned :
  let text := spaced (subject mail_with_addresses) (body mail_with_addresses) in
  Re.split (Re.one_of ".!?") text
    = ["Help with login Please reply to bob@example"; "com or to carol@example"; "com"] /\
  requirements_spec text = ["Help with login Please reply to bob@example"] /\
  extract_information mail_with_addresses = Raise TypeError /\
  (forall e : email,
     Re.has_match email_pattern (spaced (subject e) (body e)) = true ->
     extract_information e = Raise TypeError) /\
  (forall (e : email) (i : extracted_info),
     extract_information e = Ok i ->
     requirements i = requirements_spec (spaced (subject e) (body e))).
Proof.
  intros text. subst text. split; [|split; [|split; [|split]]].
  - vm_compute. reflexivity.
  - vm_compute. reflexivity.
  - apply extract_information_address. vm_compute. reflexivity.
  - intros e Hm. apply extract_information_address, Hm.
  - intros e i Hi. apply extract_information_requirements, Hi.
Qed.

End RequirementsOfAnEmail.

(* ===================================================================== *)
(** * sorted: a stable sort by key *)
(* ===================================================================== *)

Section Sorted.
Context {A : Type} (key : A -> Z).

Lemma insert_by_perm (x : A) (l : list A) : insert_by key x l ≡ₚ x :: l.
Proof.
  induction l as [|y l IH]; simpl; [reflexivity|].
  destruct (key x <=? key y)%Z; [reflexivity|].
  rewrite IH. apply Permutation_swap.
Qed.

Lemma sorted_perm (l : list A) : sorted key l ≡ₚ l.
Proof.
  induction l as [|x l IH]; simpl; [reflexivity|].
  rewrite insert_by_perm, IH. reflexivity.
Qed.

Lemma sorted_length (l : list A) : length (sorted key l) = length l.
Proof. apply Permutation_length, sorted_perm. Qed.

Lemma insert_by_ascending (x : A) (l : list A) :
  StronglySorted (fun a b => (key a <= key b)%Z) l ->
  StronglySorted (fun a b => (key a <= key b)%Z) (insert_by key x l).
Proof.
  induction l as [|y l IH]; intros Hl; simpl.
  - constructor; constructor.
  - inversion Hl as [|? ? Hl' Hy]; subst.
    destruct (Z.leb_spec (key x) (key y)) as [Hxy|Hyx].
    + constructor; [exact Hl|]. constructor; [exact Hxy|].
      eapply Forall_impl; [exact Hy|]. simpl. intros; lia.
    + constructor; [apply IH, Hl'|].
      rewrite insert_by_perm. constructor; [lia | exact Hy].
Qed.

Lemma sorted_ascending (l : list A) :
  StronglySorted (fun a b => (key a <= key b)%Z) (sorted key l).
Proof.
  induction l as [|x l IH]; simpl; [constructor|].
  apply insert_by_ascending, IH.
Qed.

Lemma insert_by_stable (k : Z) (x : A) (l : list A) :
  List.filter (fun a => (key a =? k)%Z) (insert_by key x l)
  = List.filter (fun a => (key a =? k)%Z) (x :: l).
Proof.
  induction l as [|y l IH]; [reflexivity|].
  cbn [insert_by]. destruct (Z.leb_spec (key x) (key y)) as [Hxy|Hyx]; [reflexivity|].
  cbn [List.filter] in *. rewrite IH.
  destruct (Z.eqb_spec (key x) k), (Z.eqb_spec (key y) k); try reflexivity. lia.
Qed.

(** The elements of equal key keep the order they have in the list. *)
Lemma sorted_stable (k : Z) (l : list A) :
  List.filter (fun a => (key a =? k)%Z) (sorted key l)
  = List.filter (fun a => (key a =? k)%Z) l.
Proof.
  induction l as [|x l IH]; [reflexivity|].
  simpl sorted. rewrite insert_by_stable. cbn [List.filter]. rewrite IH. reflexivity.
Qed.

Lemma filter_key_head (k : Z) (x : A) (l : list A) :
  key x = k ->
  List.filter (fun a => (key a =? k)%Z) (x :: l)
  = x :: List.filter (fun a => (key a =? k)%Z) l.
Proof. intros <-. cbn [List.filter]. rewrite Z.eqb_refl. reflexivity. Qed.

Lemma ascending_stable_eq (l1 l2 : list A) :
  StronglySorted (fun a b => (key a <= key b)%Z) l1 ->
  StronglySorted (fun a b => (key a <= key b)%Z) l2 ->
  (forall k, List.filter (fun a => (key a =? k)%Z) l1
             = List.filter (fun a => (key a =? k)%Z) l2) ->
  l1 = l2.
Proof.
  revert l2. induction l1 as [|x l1 IH]; intros l2 Hs1 Hs2 Hsame.
  - destruct l2 as [|y l2]; [reflexivity|].
    specialize (Hsame (key y)). rewrite filter_key_head in Hsame by reflexivity.
    discriminate.
  - destruct l2 as [|y l2].
    { specialize (Hsame (key x)). rewrite filter_key_head in Hsame by reflexivity.
      discriminate. }
    inversion Hs1 as [|? ? Hs1' Hx]; subst. inversion Hs2 as [|? ? Hs2' Hy]; subst.
    assert (Hyx : (key y <= key x)%Z).
    { pose proof (Hsame (key x)) as Hk.
      rewrite (filter_key_head (key x) x) in Hk by reflexivity.
      assert (Hin : In x (List.filter (fun a => (key a =? key x)%Z) (y :: l2)))
        by (rewrite <- Hk; left; reflexivity).
      apply filter_In in Hin as [[->|Hin] _]; [lia|].
      apply list_elem_of_In in Hin.
      exact (proj1 (Forall_forall _ _) Hy x Hin). }
    assert (Hxy : (key x <= key y)%Z).
    { pose proof (Hsame (key y)) as Hk.
      rewrite (filter_key_head (key y) y l2) in Hk by reflexivity.
      assert (Hin : In y (List.filter (fun a => (key a =? key y)%Z) (x :: l1)))
        by (rewrite Hk; left; reflexivity).
      apply filter_In in Hin as [[->|Hin] _]; [lia|].
      apply list_elem_of_In in Hin.
      exact (proj1 (Forall_forall _ _) Hx y Hin). }
    assert (Hkey : key x = key y) by lia.
    pose proof (Hsame (key x)) as Hk.
    rewrite (filter_key_head (key x) x), (filter_key_head (key x) y) in Hk by auto.
    injection Hk as <- Hk. f_equal. apply IH; [exact Hs1' | exact Hs2' |].
    intros k. destruct (Z.eq_dec (key x) k) as [<-|Hne]; [exact Hk|].
    specialize (Hsame k). cbn [List.filter] in Hsame.
    destruct (Z.eqb_spec (key x) k); [congruence | exact Hsame].
Qed.

(** There is one stable sort: a list in ascending order of the keys whose
    elements of equal key are in the order they have in [l] is
    [sorted key l]. *)
Lemma sorted_unique (l l' : list A) :
  StronglySorted (fun a b => (key a <= key b)%Z) l' ->
  (forall k, List.filter (fun a => (key a =? k)%Z) l'
             = List.filter (fun a => (key a =? k)%Z) l) ->
  l' = sorted key l.
Proof.
  intros Hs Hsame. apply ascending_stable_eq; [exact Hs | apply sorted_ascending |].
  intros k. rewrite sorted_stable. apply Hsame.
Qed.

End Sorted.

(* ===================================================================== *)
(** * show_email_detail *)
(* ===================================================================== *)

Section Detail.

Lemma priority_emails_length (st : system) :
  length (priority_emails st) = length (priority_queue st).
Proof. unfold priority_emails. rewrite length_map, sorted_length. reflexivity. Qed.

Lemma priority_emails_valid (st : system) :
  well_formed st -> Forall (fun r => r < length (store st)) (priority_emails st).
Proof.
  intros [_ Hrefs]. unfold priority_emails. apply Forall_fmap.
  rewrite sorted_perm. exact Hrefs.
Qed.

Lemma deref_lookup (st : system) (rs : list ref) (i : nat) :
  Forall (fun r => r < length (store st)) rs ->
  deref st rs !! i = rs !! i ≫= fun r => store st !! r.
Proof.
  unfold deref. revert i. induction rs as [|r rs IH]; intros i Hrs; [reflexivity|].
  inversion Hrs as [|? ? Hr Hrs']; subst.
  destruct (lookup_lt_is_Some_2 (store st) r Hr) as [pe Hpe].
  simpl. rewrite Hpe. destruct i as [|i]; simpl; [exact (eq_sym Hpe) | apply IH, Hrs'].
Qed.

Lemma same_but_workflow_refl (pe : processed_email) : same_but_workflow pe pe.
Proof. repeat split. Qed.

Lemma deref_related (st st' : system) (rs : list ref) :
  (forall r, option_Forall2 same_but_workflow (store st !! r) (store st' !! r)) ->
  Forall2 same_but_workflow (deref st rs) (deref st' rs).
Proof.
  intros Hst. unfold deref. induction rs as [|r rs IH]; simpl; [constructor|].
  destruct (Hst r); [constructor; assumption | exact IH].
Qed.

Lemma filter_related (p : processed_email -> bool) (l k : list processed_email) :
  (forall a b, same_but_workflow a b -> p a = p b) ->
  Forall2 same_but_workflow l k ->
  Forall2 same_but_workflow (List.filter p l) (List.filter p k).
Proof.
  intros Hp Hlk. induction Hlk as [|a b l k Hab Hlk IH]; simpl; [constructor|].
  rewrite (Hp a b Hab). destruct (p b); [constructor; assumption | exact IH].
Qed.

(** The effect of [show_email_detail] on the object and on the store. *)
Lemma show_email_detail_effect (st st' : system) (index : Z) (choice reply : string)
    (out : shown) :
  show_email_detail st index choice reply = Ok (st', out) ->
  emails st' = emails st /\
  processed_emails st' = processed_emails st /\
  priority_queue st' = priority_queue st /\
  email_counter st' = email_counter st /\
  (store st' = store st \/
   exists r pe,
     priority_emails st !! Z.to_nat (index - 1) = Some r /\
     store st !! r = Some pe /\ out = Detail pe /\
     (store st' = <[r := set_status Resolved pe]> (store st) \/
      exists v, store st' = <[r := set_generated_response v pe]> (store st))).
Proof.
  unfold show_email_detail.
  destruct (_ || _)%bool.
  { intros [= <- <-]. auto 10. }
  destruct (priority_emails st !! Z.to_nat (index - 1)) as [r|] eqn:Hr; [|discriminate].
  destruct (store st !! r) as [pe|] eqn:Hpe; [|discriminate].
  destruct (String.eqb (strip choice) "1").
  { intros [= <- <-]. simpl. repeat (split; [reflexivity|]). right. eauto 10. }
  destruct (String.eqb (strip choice) "2"); [|intros [= <- <-]; auto 10].
  destruct (negb _); intros [= <- <-]; [|auto 10].
  simpl. repeat (split; [reflexivity|]). right. eauto 10.
Qed.

Lemma store_related (st st' : system) (index : Z) (choice reply : string) (out : shown) :
  show_email_detail st index choice reply = Ok (st', out) ->
  forall r, option_Forall2 same_but_workflow (store st !! r) (store st' !! r).
Proof.
  intros Hshow r.
  destruct (show_email_detail_effect _ _ _ _ _ _ Hshow)
    as (_ & _ & _ & _ & [Hst|(r0 & pe & _ & Hpe & _ & Hst)]).
  - rewrite Hst. destruct (store st !! r); constructor. apply same_but_workflow_refl.
  - assert (Hcase : exists pe', store st' = <[r0 := pe']> (store st) /\
                                same_but_workflow pe pe').
    { destruct Hst as [Hst|[v Hst]]; eexists; (split; [exact Hst|]); repeat split. }
    destruct Hcase as (pe' & -> & Hrel).
    destruct (decide (r0 = r)) as [->|Hne].
    + rewrite Hpe, list_lookup_insert_eq by (eapply lookup_lt_Some; exact Hpe).
      constructor. exact Hrel.
    + rewrite list_lookup_insert_ne by exact Hne.
      destruct (store st !! r); constructor. apply same_but_workflow_refl.
Qed.

End Detail.

Section DetailProperties.

(** C3. A call of [show_email_detail] that marks an email resolved or
    replaces its response leaves the queue and the order of the ordered
    view as they were: the view lists the same dictionaries in the same
    places, each differing from its former self in [status] and
    [generated_response] at most, and the dictionaries other than the
    selected one are unchanged. *)
Theorem show_email_detail_keeps_order (st st' : system) (index : Z)
    (choice reply : string) (out : shown) :
  show_email_detail st index choice reply = Ok (st', out) ->
  priority_queue st' = priority_queue st /\
  priority_emails st' = priority_emails st /\
  (forall f, Forall2 same_but_workflow (display_emails st f) (display_emails st' f)) /\
  (forall r, priority_emails st !! Z.to_nat (index - 1) <> Some r ->
             store st' !! r = store st !! r).
Proof.
  intros Hshow.
  pose proof (show_email_detail_effect _ _ _ _ _ _ Hshow)
    as (_ & Hproc & Hqueue & _ & Hstore).
  assert (Hview : priority_emails st' = priority_emails st).
  { unfold priority_emails. rewrite Hqueue. reflexivity. }
  split; [exact Hqueue|]. split; [exact Hview|]. split.
  - intros f. unfold display_emails. rewrite Hproc, Hview.
    destruct (processed_emails st); [constructor|].
    pose proof (deref_related st st' (priority_emails st)
                  (store_related _ _ _ _ _ _ Hshow)) as Hrel.
    destruct f as [p|]; [|exact Hrel].
    apply filter_related; [|exact Hrel].
    intros a b (_ & _ & Hp & _). rewrite Hp. reflexivity.
  - intros r Hr.
    destruct Hstore as [->|(r0 & pe & Hr0 & _ & _ & Hst)]; [reflexivity|].
    assert (Hne : r0 <> r) by congruence.
    destruct Hst as [->|[v ->]]; apply list_lookup_insert_ne, Hne.
Qed.

(** C7. With an index below 1 or above the number of processed emails,
    [show_email_detail] shows [Invalid email index.] and returns with the
    system as it was; with an index from 1 to that number it shows the
    email at that place (counted from 1) of the ordered view. No
    exception is raised in either case. *)
Theorem show_email_detail_range (st : system) (index : Z) (choice reply : string) :
  well_formed st ->
  ((index < 1 \/ Z.of_nat (length (processed_emails st)) < index)%Z ->
   show_email_detail st index choice reply = Ok (st, Invalid_index)) /\
  ((1 <= index <= Z.of_nat (length (processed_emails st)))%Z ->
   exists pe st',
     display_emails st None !! Z.to_nat (index - 1) = Some pe /\
     show_email_detail st index choice reply = Ok (st', Detail pe) /\
     well_formed st').
Proof.
  intros Hwf. split.
  - intros Hout. unfold show_email_detail.
    destruct (Z.ltb_spec index 1); [reflexivity|].
    destruct (Z.ltb_spec (Z.of_nat (length (processed_emails st))) index);
      [reflexivity | lia].
  - intros Hin.
    pose proof (priority_emails_valid st Hwf) as Hvalid.
    pose proof (priority_emails_length st) as Hlen.
    destruct Hwf as [Hsame Hrefs].
    destruct (lookup_lt_is_Some_2 (priority_emails st) (Z.to_nat (index - 1)))
      as [r Hr]; [lia|].
    assert (Hr' : r < length (store st)).
    { eapply Forall_lookup_1 in Hvalid; [exact Hvalid | exact Hr]. }
    destruct (lookup_lt_is_Some_2 (store st) r Hr') as [pe Hpe].
    assert (Hview : display_emails st None !! Z.to_nat (index - 1) = Some pe).
    { unfold display_emails.
      destruct (processed_emails st) eqn:Hp; [simpl in Hin; lia|].
      rewrite deref_lookup by exact Hvalid. rewrite Hr. exact Hpe. }
    destruct (show_email_detail st index choice reply) as [[st' out]|x] eqn:Hshow.
    + pose proof (show_email_detail_effect _ _ _ _ _ _ Hshow)
        as (_ & Hproc & Hqueue & _ & Hstore).
      assert (Hout : out = Detail pe /\ length (store st') = length (store st)).
      { revert Hshow. unfold show_email_detail.
        destruct (Z.ltb_spec index 1); [lia|].
        destruct (Z.ltb_spec (Z.of_nat (length (processed_emails st))) index); [lia|].
        simpl. rewrite Hr, Hpe.
        destruct (String.eqb (strip choice) "1");
          [intros [= <- <-]; simpl; rewrite length_insert; auto|].
        destruct (String.eqb (strip choice) "2"); [|intros [= <- <-]; auto].
        destruct (negb _); intros [= <- <-]; simpl; rewrite ?length_insert; auto. }
      destruct Hout as [-> Hlen'].
      exists pe, st'. split; [exact Hview|]. split; [reflexivity|].
      split; [rewrite Hqueue, Hproc; exact Hsame|].
      rewrite Hqueue, Hlen'. exact Hrefs.
    + exfalso. revert Hshow. unfold show_email_detail.
      destruct (Z.ltb_spec index 1); [lia|].
      destruct (Z.ltb_spec (Z.of_nat (length (processed_emails st))) index); [lia|].
      simpl. rewrite Hr, Hpe.
      destruct (String.eqb (strip choice) "1"); [discriminate|].
      destruct (String.eqb (strip choice) "2"); [|discriminate].
      destruct (negb _); discriminate.
Qed.

End DetailProperties.

(* ===================================================================== *)
(** * heappush *)
(* ===================================================================== *)

Section Heap.

Lemma entry_lt_fresh (objs : list processed_email) (a b : entry) :
  counter_of a <> counter_of b -> exists v, Heapq.entry_lt objs a b = Ok v.
Proof.
  destruct a as [[sa ca] ra], b as [[sb cb] rb]. unfold counter_of. simpl.
  intros Hne.
  destruct (sa <? sb)%Z; [eauto|]. destruct (sb <? sa)%Z; [eauto|].
  destruct (Nat.ltb_spec ca cb); [eauto|].
  destruct (Nat.ltb_spec cb ca); [eauto|]. lia.
Qed.

Lemma parent_below (pos : nat) : 0 < pos -> (pos - 1) / 2 < pos.
Proof.
  intros Hpos. apply Nat.le_lt_trans with (pos - 1); [|lia].
  apply Nat.Div0.div_le_upper_bound. lia.
Qed.

Lemma siftdown_loop_ok (objs : list processed_email) (fuel : nat) (heap : list entry)
    (newitem : entry) (pos : nat) :
  pos < length heap ->
  (forall j x, j <> pos -> heap !! j = Some x -> counter_of x <> counter_of newitem) ->
  exists heap',
    Heapq.siftdown_loop objs fuel heap newitem pos = Ok heap' /\
    heap' ≡ₚ <[pos := newitem]> heap.
Proof.
  revert heap pos.
  induction fuel as [|fuel IH]; intros heap pos Hpos Hfresh; cbn [Heapq.siftdown_loop].
  - eexists; split; reflexivity.
  - destruct (Nat.ltb_spec 0 pos) as [Hgt|_]; [|eexists; split; reflexivity].
    pose proof (parent_below pos Hgt) as Hpp.
    destruct (lookup_lt_is_Some_2 heap ((pos - 1) / 2)) as [parent Hparent]; [lia|].
    rewrite Hparent.
    destruct (entry_lt_fresh objs newitem parent) as [v Hv].
    { intros Heq. apply (Hfresh ((pos - 1) / 2) parent); [lia | exact Hparent | auto]. }
    rewrite Hv. simpl. destruct v; [|eexists; split; reflexivity].
    destruct (IH (<[pos := parent]> heap) ((pos - 1) / 2)) as (heap' & Hrun & Hperm).
    + rewrite length_insert. lia.
    + intros j x Hj Hx. destruct (decide (j = pos)) as [->|Hne].
      * rewrite list_lookup_insert_eq in Hx by exact Hpos. injection Hx as <-.
        apply (Hfresh ((pos - 1) / 2) parent); [lia | exact Hparent].
      * rewrite list_lookup_insert_ne in Hx by auto. exact (Hfresh j x Hne Hx).
    + exists heap'. split; [exact Hrun|]. rewrite Hperm.
      rewrite <- (list_insert_insert_eq heap pos parent newitem).
      apply Permutation_insert_swap.
      * apply list_lookup_insert_eq. exact Hpos.
      * rewrite list_lookup_insert_ne by lia. exact Hparent.
Qed.

Lemma heappush_ok (objs : list processed_email) (heap : list entry) (item : entry) :
  Forall (fun x => counter_of x <> counter_of item) heap ->
  exists heap',
    Heapq.heappush objs heap item = Ok heap' /\ heap' ≡ₚ (heap ++ [item])%list.
Proof.
  intros Hfresh. unfold Heapq.heappush, Heapq.siftdown.
  rewrite lookup_app_r, Nat.sub_diag by lia. simpl.
  destruct (siftdown_loop_ok objs (length heap) (heap ++ [item]) item (length heap))
    as (heap' & Hrun & Hperm).
  - rewrite length_app. simpl. lia.
  - intros j x Hj Hx. apply lookup_app_Some in Hx as [Hx|[Hge Hx]].
    + eapply Forall_lookup_1 in Hfresh; [exact Hfresh | exact Hx].
    + destruct (j - length heap) as [|d] eqn:Hd; [lia | discriminate].
  - exists heap'. split; [exact Hrun|]. rewrite Hperm.
    rewrite list_insert_id; [reflexivity|].
    rewrite lookup_app_r, Nat.sub_diag by lia. reflexivity.
Qed.

End Heap.

(* ===================================================================== *)
(** * process_emails *)
(* ===================================================================== *)

Section Processing.
Context `{SentimentAnalyzer} `{Clock}.

Lemma process_email_raises (k : nat) (st : system) (e : email) :
  Re.has_match email_pattern (text_of e) = true ->
  process_email k st e = Raise TypeError.
Proof.
  intros Hm. unfold process_email.
  destruct (analyze_sentiment _) as [label compound].
  destruct (determine_priority _ e) as [p score].
  rewrite (extract_information_address e Hm). reflexivity.
Qed.

Lemma process_email_ok (k : nat) (st : system) (e : email) :
  Re.has_match email_pattern (text_of e) = false ->
  counters_below st ->
  exists pe queue,
    process_email k st e
    = Ok {| emails := emails st;
            store := (store st ++ [pe])%list;
            processed_emails := (processed_emails st ++ [length (store st)])%list;
            priority_queue := queue;
            email_counter := S (email_counter st) |} /\
    source pe = e /\ status pe = Pending /\
    processing_id pe = email_counter st /\
    urgency_score pe = snd (determine_priority (datetime_now k) e) /\
    priority pe = fst (determine_priority (datetime_now k) e) /\
    category pe = categorize_email e /\
    queue ≡ₚ (priority_queue st
              ++ [((- urgency_score pe)%Z, email_counter st, length (store st))])%list.
Proof.
  intros Hm Hbelow. unfold process_email.
  destruct (analyze_sentiment _) as [label compound].
  destruct (determine_priority _ e) as [p score].
  destruct (extract_information_no_address e Hm) as (i & -> & _).
  cbn [mbind result_bind].
  cbv zeta.
  match goal with
  | |- context [Heapq.heappush ?objs ?heap ?item] =>
      destruct (heappush_ok objs heap item) as (queue & -> & Hperm)
  end.
  { eapply Forall_impl; [exact Hbelow|]. unfold counter_of. simpl. intros; lia. }
  cbn [mbind result_bind]. eexists _, queue. split; [reflexivity|].
  simpl. repeat (split; [reflexivity|]). exact Hperm.
Qed.

Lemma process_loop_raises (k : nat) (filtered : list email) (st : system) :
  counters_below st ->
  Exists (fun e => Re.has_match email_pattern (text_of e) = true) filtered ->
  process_loop k filtered st = Raise TypeError.
Proof.
  revert k st. induction filtered as [|e filtered IH]; intros k st Hbelow Hex.
  - inversion Hex.
  - cbn [process_loop].
    destruct (Re.has_match email_pattern (text_of e)) eqn:Hm.
    + rewrite (process_email_raises k st e Hm). reflexivity.
    + destruct (process_email_ok k st e Hm Hbelow) as (pe & queue & -> & Hpe).
      cbn [mbind result_bind]. apply IH.
      * destruct Hpe as (_ & _ & _ & _ & _ & _ & Hperm).
        unfold counters_below. cbn [priority_queue email_counter].
        rewrite Hperm. apply Forall_app. split.
        -- eapply Forall_impl; [exact Hbelow|]. simpl. intros; lia.
        -- constructor; [unfold counter_of; simpl; lia | constructor].
      * inversion Hex as [? ? Hhere|? ? Hlater]; subst; [congruence | exact Hlater].
Qed.

Lemma process_loop_ok (k : nat) (filtered : list email) (st : system) :
  counters_below st -> keyed st -> well_formed st ->
  Forall (fun e => Re.has_match email_pattern (text_of e) = false) filtered ->
  exists st',
    process_loop k filtered st = Ok st' /\
    emails st' = emails st /\
    map source (store st') = (map source (store st) ++ filtered)%list /\
    processed_emails st'
    = (processed_emails st ++ seq (length (store st)) (length filtered))%list /\
    map snd (priority_queue st')
      ≡ₚ (map snd (priority_queue st) ++ seq (length (store st)) (length filtered))%list /\
    counters_below st' /\ keyed st' /\ well_formed st'.
Proof.
  revert k st.
  induction filtered as [|e filtered IH]; intros k st Hbelow Hkeyed Hwf Hall.
  - exists st. cbn [process_loop]. simpl. rewrite !app_nil_r. auto 10.
  - inversion Hall as [|? ? Hm Hall']; subst. cbn [process_loop].
    destruct (process_email_ok k st e Hm Hbelow)
      as (pe & queue & -> & Hsrc & _ & _ & _ & _ & _ & Hperm).
    cbn [mbind result_bind].
    set (st1 := {| emails := emails st; store := (store st ++ [pe])%list;
                   processed_emails := _; priority_queue := queue;
                   email_counter := S (email_counter st) |}).
    destruct (IH (S k) st1) as (st' & -> & Hemails & Hstore & Hproc & Hq & Hinv).
    + unfold counters_below, st1. cbn [priority_queue email_counter].
      rewrite Hperm. apply Forall_app. split.
      * eapply Forall_impl; [exact Hbelow|]. simpl. intros; lia.
      * constructor; [unfold counter_of; simpl; lia | constructor].
    + unfold keyed, st1. cbn [priority_queue store].
      rewrite Hperm. apply Forall_app. split.
      * eapply Forall_impl; [exact Hkeyed|]. simpl.
        intros x (pe0 & Hx & Hkey). exists pe0. split; [|exact Hkey].
        apply lookup_app_l_Some. exact Hx.
      * constructor; [|constructor]. exists pe. simpl. split; [|reflexivity].
        rewrite lookup_app_r, Nat.sub_diag by lia. reflexivity.
    + destruct Hwf as [Hlen Hrefs]. unfold well_formed, st1.
      cbn [priority_queue store processed_emails]. split.
      * rewrite Hperm, !length_app. simpl. lia.
      * rewrite Hperm. apply Forall_app. split.
        -- eapply Forall_impl; [exact Hrefs|]. simpl. intros x Hx.
           rewrite length_app. simpl. lia.
        -- constructor; [|constructor]. simpl. rewrite length_app. simpl. lia.
    + exact Hall'.
    + exists st'. split; [reflexivity|]. split; [exact Hemails|].
      unfold st1 in Hstore, Hproc, Hq. cbn [store processed_emails priority_queue] in *.
      rewrite length_app in Hproc, Hq. simpl in Hproc, Hq.
      rewrite Nat.add_1_r in Hproc, Hq.
      split; [|split; [|split; [|exact Hinv]]].
      * rewrite Hstore, map_app, <- app_assoc. cbn [map]. rewrite Hsrc. reflexivity.
      * rewrite Hproc, <- app_assoc. reflexivity.
      * rewrite Hq, Hperm, map_app, <- app_assoc. reflexivity.
Qed.

End Processing.

Section Labels.
Context (sa sa' : SentimentAnalyzer) `{Clock}.

Lemma determine_priority_same (now : Z) (e : email) :
  same_labels sa sa' e ->
  @determine_priority sa now e = @determine_priority sa' now e.
Proof.
  intros [_ Hlow]. rewrite !determine_priority_eq. cbv zeta.
  unfold text_of in Hlow. rewrite Hlow. reflexivity.
Qed.

Lemma extract_information_same (e : email) :
  same_labels sa sa' e ->
  @extract_information sa e = @extract_information sa' e.
Proof.
  intros [Hraw _]. unfold extract_information. unfold text_of in Hraw.
  rewrite Hraw. reflexivity.
Qed.

Lemma process_email_same (k : nat) (st : system) (e : email) :
  same_labels sa sa' e ->
  @process_email sa _ k st e = @process_email sa' _ k st e.
Proof.
  intros Hsame. unfold process_email.
  rewrite (determine_priority_same _ e Hsame), (extract_information_same e Hsame).
  destruct Hsame as [Hraw _]. unfold text_of in Hraw.
  destruct (@analyze_sentiment sa _) as [l c], (@analyze_sentiment sa' _) as [l' c'].
  simpl in Hraw. subst l'. reflexivity.
Qed.

Lemma process_loop_same (k : nat) (filtered : list email) (st : system) :
  Forall (same_labels sa sa') filtered ->
  @process_loop sa _ k filtered st = @process_loop sa' _ k filtered st.
Proof.
  revert k st. induction filtered as [|e filtered IH]; intros k st Hall; [reflexivity|].
  inversion Hall as [|? ? He Hall']; subst. cbn [process_loop].
  rewrite (process_email_same k st e He).
  destruct (@process_email sa' _ k st e) as [st'|x]; [|reflexivity].
  cbn [mbind result_bind]. apply IH, Hall'.
Qed.

Lemma process_emails_same (st : system) :
  Forall (same_labels sa sa') (filter_emails st) ->
  @process_emails sa _ st = @process_emails sa' _ st.
Proof.
  intros Hall. unfold process_emails. rewrite (process_loop_same _ _ _ Hall). reflexivity.
Qed.

End Labels.

Section Batch.
Context `{SentimentAnalyzer} `{Clock}.

Lemma loaded_invariant (batch : list email) :
  counters_below (loaded batch) /\ keyed (loaded batch) /\ well_formed (loaded batch).
Proof. repeat split; constructor. Qed.

(** [process_emails] on a freshly loaded batch: it ends in a [TypeError]
    when one of the support emails holds an address, and otherwise it
    returns the number of support emails, having stored one dictionary
    for each, in the order of the batch, and queued a reference to each. *)
Lemma process_emails_loaded (batch : list email) :
  let selected := List.filter is_support batch in
  (Exists (fun e => Re.has_match email_pattern (text_of e) = true) selected ->
   process_emails (loaded batch) = Raise TypeError) /\
  (Forall (fun e => Re.has_match email_pattern (text_of e) = false) selected ->
   exists st,
     process_emails (loaded batch) = Ok (st, length selected) /\
     map source (store st) = selected /\
     processed_emails st = seq 0 (length selected) /\
     map snd (priority_queue st) ≡ₚ seq 0 (length selected) /\
     keyed st /\ well_formed st).
Proof.
  intros selected. destruct (loaded_invariant batch) as (Hbelow & Hkeyed & Hwf).
  unfold process_emails, filter_emails. cbn [emails loaded]. fold selected. split.
  - intros Hex. rewrite (process_loop_raises 0 selected _ Hbelow Hex). reflexivity.
  - intros Hall.
    destruct (process_loop_ok 0 selected _ Hbelow Hkeyed Hwf Hall)
      as (st & -> & _ & Hstore & Hproc & Hq & _ & Hk & Hw).
    exists st. split; [reflexivity|]. auto 10.
Qed.

End Batch.

Section View.

Lemma deref_descending (st : system) (l : list entry) :
  Forall (fun x : entry =>
            exists pe, store st !! snd x = Some pe /\
                       fst (fst x) = (- urgency_score pe)%Z) l ->
  StronglySorted (fun a b : entry => (fst (fst a) <= fst (fst b))%Z) l ->
  StronglySorted (fun a b => (urgency_score b <= urgency_score a)%Z)
                 (deref st (map snd l)).
Proof.
  unfold deref. intros Hkeyed Hsorted.
  induction Hsorted as [|x l Hl IH Hx]; [constructor|].
  inversion Hkeyed as [|? ? (pe & Hpe & Hkey) Hkeyed']; subst.
  cbn [map omap list_omap]. rewrite Hpe. constructor; [apply IH, Hkeyed'|].
  apply Forall_forall. intros b Hb.
  apply list_elem_of_omap in Hb as (r & Hr & Hb).
  apply list_elem_of_In, in_map_iff in Hr as (y & <- & Hy).
  apply list_elem_of_In in Hy.
  pose proof (proj1 (Forall_forall _ _) Hx y Hy) as Hxy.
  pose proof (proj1 (Forall_forall _ _) Hkeyed' y Hy) as (pe' & Hpe' & Hkey').
  simpl in Hxy. assert (pe' = b) by congruence. subst pe'. lia.
Qed.

(** The ordered view goes from the highest score to the lowest. *)
Lemma display_emails_descending (st : system) :
  keyed st ->
  StronglySorted (fun a b => (urgency_score b <= urgency_score a)%Z)
                 (display_emails st None).
Proof.
  intros Hkeyed. unfold display_emails.
  destruct (processed_emails st); [constructor|].
  unfold priority_emails. apply deref_descending.
  - unfold keyed in Hkeyed. rewrite sorted_perm. exact Hkeyed.
  - apply (sorted_ascending (fun x : entry => fst (fst x))).
Qed.

End View.

(* ===================================================================== *)
(** * The ordered view and the batch on sample emails *)
(* ===================================================================== *)

Section Samples.

Lemma sample_selected :
  filter_emails (loaded sample_batch)
  = [mail "Help" "My login is broken" 0 "email_1";
     mail "Help" "My login is broken" 0 "email_2";
     mail "Help" "My login is broken" (100 * hour) "email_3"].
Proof. vm_compute. reflexivity. Qed.

Lemma labelling_same_labels (sa : SentimentAnalyzer) (sent : Z) (name : string) :
  same_labels sa
    (labelling (fst (@analyze_sentiment sa "Help My login is broken"))
               (fst (@analyze_sentiment sa "help my login is broken")))
    (mail "Help" "My login is broken" sent name).
Proof.
  unfold same_labels.
  change (text_of (mail "Help" "My login is broken" sent name))
    with "Help My login is broken".
  change (lower "Help My login is broken") with "help my login is broken".
  split.
  - destruct (fst (@analyze_sentiment sa "Help My login is broken")),
             (fst (@analyze_sentiment sa "help my login is broken")); reflexivity.
  - destruct (fst (@analyze_sentiment sa "Help My login is broken")),
             (fst (@analyze_sentiment sa "help my login is broken")); reflexivity.
Qed.

(** C2. The ordered view goes from high scores to low ones, but emails of
    equal score come in the order of the heap's array, not in the order
    of insertion: of the three support emails of [sample_batch], the first
    two get the same score and the third a score higher by 3, whatever the
    analyser, and the view lists the third, then the second, then the
    first. *)
Theorem ordered_view_ties_out_of_insertion_order `{SentimentAnalyzer} :
  exists s st,
    @process_emails _ ticking_clock (loaded sample_batch) = Ok (st, 3) /\
    map processing_id (display_emails st None) = [2; 1; 0] /\
    map urgency_score (display_emails st None) = [(s + 3)%Z; s; s] /\
    ~ ordered_by_score_then_sequence (display_emails st None).
Proof.
  rewrite (process_emails_same H
             (labelling (fst (@analyze_sentiment H "Help My login is broken"))
                        (fst (@analyze_sentiment H "help my login is broken")))).
  2: { rewrite sample_selected. repeat constructor; apply labelling_same_labels. }
  generalize (fst (@analyze_sentiment H "Help My login is broken")).
  generalize (fst (@analyze_sentiment H "help my login is broken")).
  intros low raw.
  exists (1 + sentiment_adjustment low)%Z.
  destruct low, raw; eexists;
    (split; [vm_compute; reflexivity|]);
    (split; [vm_compute; reflexivity|]);
    (split; [vm_compute; reflexivity|]);
    intros Hord;
    apply (StronglySorted_fmap (fun pe => (urgency_score pe, processing_id pe))
             before_in_view
             (fun a b => (fst b < fst a)%Z \/ (fst a = fst b /\ snd a < snd b)))
      in Hord; auto;
    vm_compute in Hord;
    inversion Hord as [|? ? Hrest _]; subst;
    inversion Hrest as [|? ? _ Hhd]; subst;
    inversion Hhd as [|? ? [Hbad|[_ Hbad]] _]; subst;
    first [discriminate Hbad | inversion Hbad].
Qed.

(** C10. [process_emails] does not return on every batch: both emails of
    [batch_with_addresses] pass the keyword filter, the second holds
    addresses, and the call ends in the [TypeError] of
    [extract_information] instead of returning the count 2. *)
Theorem process_emails_aborts_on_address `{SentimentAnalyzer} `{Clock} :
  filter_emails (loaded batch_with_addresses) = batch_with_addresses /\
  process_emails (loaded batch_with_addresses) = Raise TypeError.
Proof.
  split; [vm_compute; reflexivity|].
  apply process_emails_loaded.
  change (List.filter is_support batch_with_addresses) with batch_with_addresses.
  apply Exists_cons_tl, Exists_cons_hd. vm_compute. reflexivity.
Qed.

End Samples.

(* ===================================================================== *)
(** * Runs on the sample system *)
(* ===================================================================== *)

Lemma sample_system_well_formed : well_formed sample_system.
Proof. split; [vm_compute; reflexivity | vm_compute; repeat constructor]. Defined.

(** Marking the second email of the view resolved keeps the view's order. *)
Lemma show_email_detail_keeps_order_witness :
  exists st' out,
    show_email_detail sample_system 2 "1" EmptyString = Ok (st', out) /\
    priority_emails st' = priority_emails sample_system.
Proof.
  eexists _, _. split; [vm_compute; reflexivity|].
  eapply (show_email_detail_keeps_order sample_system _ 2 "1" EmptyString).
  vm_compute. reflexivity.
Defined.

(** Index 0 is refused and index 2 shows the second email of the view. *)
Lemma show_email_detail_range_witness :
  show_email_detail sample_system 0 "1" EmptyString = Ok (sample_system, Invalid_index) /\
  exists pe st',
    display_emails sample_system None !! Z.to_nat (2 - 1) = Some pe /\
    show_email_detail sample_system 2 "2" "Fixed." = Ok (st', Detail pe) /\
    well_formed st'.
Proof.
  split.
  - apply (show_email_detail_range sample_system 0 "1" EmptyString sample_system_well_formed).
    left. lia.
  - apply (show_email_detail_range sample_system 2 "2" "Fixed."
             sample_system_well_formed).
    vm_compute. split; discriminate.
Defined.

Example lower_ex : lower "URGENT: Cannot Access" = "urgent: cannot access".
Proof. reflexivity. Qed.

Example strip_ex : strip "  I need help  " = "I need help".
Proof. reflexivity. Qed.

Example split_ex :
  Re.split (Re.one_of ".!?") "Hi. I need x! ok" = ["Hi"; " I need x"; " ok"].
Proof. reflexivity. Qed.

Example findall_email_ex :
  Re.findall email_pattern "write to bob.smith@example.com, not to x@y.z or a@b.cd_e"
  = ["bob.smith@example.com"].
Proof. vm_compute. reflexivity. Qed.

Example findall_phone_ex :
  Re.findall phone_pattern "call 555-123-4567 or 5551234567, not 1555.123.45678"
  = ["555-123-4567"; "5551234567"].
Proof. vm_compute. reflexivity. Qed.

(** The example of the specification: three priority keywords, a Negative
    sentiment and an age of thirty minutes give the score 8. *)
Example determine_priority_ex :
  @determine_priority (labelling Negative Negative) (hour / 2)
    (mail "URGENT: cannot access account" "The login page is broken" 0 "email_1")
  = (Urgent, 8%Z).
Proof. vm_compute. reflexivity. Qed.

Example categorize_email_zero_ex :
  categorize_email (mail "Greetings" "See you on Monday" 0 "email_4") = "account_issues".
Proof. vm_compute. reflexivity. Qed.

Example requirements_ex :
  requirements <$>
    (match @extract_information neutral_analyzer
             (mail "Renewal" "I need an invoice. We want two seats! Is it late? I require a receipt. Please help with this" 0 "email_5")
     with Ok i => Some i | Raise _ => None end)
  = Some ["Renewal I need an invoice"; "We want two seats"; "I require a receipt"].
Proof. vm_compute. reflexivity. Qed.

(* ===================================================================== *)
(** * More on determine_priority *)
(* ===================================================================== *)

Section PriorityBounds.
Context `{SentimentAnalyzer}.

Lemma count_present_at_most (kws : list string) (text : string) :
  (count_present kws text <= Z.of_nat (length kws))%Z.
Proof.
  rewrite count_present_length.
  pose proof (filter_length_le (fun kw => contains kw text) kws). lia.
Qed.

Lemma recency_bonus_range (now : Z) (e : email) : (0 <= recency_bonus now e <= 3)%Z.
Proof.
  unfold recency_bonus.
  destruct (_ <? _)%Z; [lia|]. destruct (_ <? _)%Z; [lia|].
  destruct (_ <? _)%Z; lia.
Qed.

Lemma sentiment_adjustment_range (s : sentiment_label) :
  (-1 <= sentiment_adjustment s <= 2)%Z.
Proof. destruct s; simpl; lia. Qed.

(** X1. The urgency score lies between -1 and 14: at most nine keywords,
    2 for the sentiment and 3 for the recency, at least -1 for a Positive
    text without keywords. *)
Theorem urgency_score_bounds (now : Z) (e : email) :
  (-1 <= snd (determine_priority now e) <= 14)%Z.
Proof.
  rewrite determine_priority_eq. cbv zeta. simpl snd.
  pose proof (count_present_nonneg priority_keywords (lower (spaced (subject e) (body e)))).
  pose proof (count_present_at_most priority_keywords (lower (spaced (subject e) (body e)))) as Hc.
  change (Z.of_nat (length priority_keywords)) with 9%Z in Hc.
  pose proof (recency_bonus_range now e).
  pose proof (sentiment_adjustment_range
                (fst (analyze_sentiment (lower (spaced (subject e) (body e)))))).
  lia.
Qed.

End PriorityBounds.

Section PriorityRules.
Context `{SentimentAnalyzer}.

Lemma count_present_zero (kws : list string) (text : string) :
  any_in kws text = false -> count_present kws text = 0%Z.
Proof.
  intros Hnone. rewrite count_present_length.
  replace (List.filter (fun kw => contains kw text) kws) with (@nil string); [reflexivity|].
  symmetry. unfold any_in in Hnone. induction kws as [|kw kws IH]; [reflexivity|].
  simpl in Hnone. apply orb_false_iff in Hnone as [Hkw Hrest].
  cbn [List.filter]. rewrite Hkw. exact (IH Hrest).
Qed.

(** X2. An email less than one hour old (or dated in the future) whose
    lowercased text is not labelled Positive is Urgent, whatever it
    says. *)
Theorem recent_email_is_urgent (now : Z) (e : email) :
  (now - sent_date e < hour)%Z ->
  fst (analyze_sentiment (lower (text_of e))) <> Positive ->
  fst (determine_priority now e) = Urgent.
Proof.
  intros Hage Hlabel. rewrite determine_priority_eq. cbv zeta. simpl fst.
  unfold text_of in Hlabel.
  pose proof (count_present_nonneg priority_keywords
                (lower (spaced (subject e) (body e)))) as Hc.
  assert (Hbonus : recency_bonus now e = 3%Z).
  { unfold recency_bonus. destruct (Z.ltb_spec (now - sent_date e) (1 * hour)); lia. }
  assert (Hadj : (0 <= sentiment_adjustment
                         (fst (analyze_sentiment (lower (spaced (subject e) (body e))))))%Z).
  { destruct (fst (analyze_sentiment _)); simpl; try lia. congruence. }
  destruct (Z.leb_spec 3 (count_present priority_keywords
                            (lower (spaced (subject e) (body e)))
                          + sentiment_adjustment
                              (fst (analyze_sentiment (lower (spaced (subject e) (body e)))))
                          + recency_bonus now e)); [reflexivity | lia].
Qed.

(** X3. An email of twelve hours or more in which no priority keyword
    occurs is never Urgent, whatever its sentiment. *)
Theorem old_email_without_keyword_not_urgent (now : Z) (e : email) :
  (12 * hour <= now - sent_date e)%Z ->
  any_in priority_keywords (lower (text_of e)) = false ->
  fst (determine_priority now e) = Not_urgent.
Proof.
  intros Hage Hnone. rewrite determine_priority_eq. cbv zeta. simpl fst.
  unfold text_of in Hnone. rewrite (count_present_zero _ _ Hnone).
  assert (Hbonus : recency_bonus now e = 0%Z).
  { unfold recency_bonus, hour in *.
    destruct (Z.ltb_spec (now - sent_date e) (1 * 3600000000)); [lia|].
    destruct (Z.ltb_spec (now - sent_date e) (4 * 3600000000)); [lia|].
    destruct (Z.ltb_spec (now - sent_date e) (12 * 3600000000)); lia. }
  rewrite Hbonus.
  pose proof (sentiment_adjustment_range
                (fst (analyze_sentiment (lower (spaced (subject e) (body e)))))).
  destruct (Z.leb_spec 3 (0 + sentiment_adjustment
                              (fst (analyze_sentiment (lower (spaced (subject e) (body e)))))
                          + 0)); [lia | reflexivity].
Qed.

(** X4. The urgency score of an email never grows as the email ages. *)
Theorem urgency_never_grows_with_age (now later : Z) (e : email) :
  (now <= later)%Z ->
  (snd (determine_priority later e) <= snd (determine_priority now e))%Z.
Proof.
  intros Hlater. rewrite !determine_priority_eq. cbv zeta. simpl snd.
  assert (Hbonus : (recency_bonus later e <= recency_bonus now e)%Z).
  { unfold recency_bonus, hour.
    destruct (Z.ltb_spec (later - sent_date e) (1 * 3600000000));
      destruct (Z.ltb_spec (now - sent_date e) (1 * 3600000000)); try lia;
      destruct (Z.ltb_spec (later - sent_date e) (4 * 3600000000));
      destruct (Z.ltb_spec (now - sent_date e) (4 * 3600000000)); try lia;
      destruct (Z.ltb_spec (later - sent_date e) (12 * 3600000000));
      destruct (Z.ltb_spec (now - sent_date e) (12 * 3600000000)); lia. }
  lia.
Qed.

End PriorityRules.

Section PriorityAndSentiment.

Lemma label_antitone (c c' : Q) (sa sa' : SentimentAnalyzer) (text : string) :
  @polarity_compound sa text = c -> @polarity_compound sa' text = c' ->
  (c <= c')%Q ->
  (sentiment_adjustment (fst (@analyze_sentiment sa' text))
   <= sentiment_adjustment (fst (@analyze_sentiment sa text)))%Z.
Proof.
  intros Hc Hc' Hle. rewrite !analyze_sentiment_label, Hc, Hc'.
  destruct (Qle_bool (5 # 100) c') eqn:H1; destruct (Qle_bool (5 # 100) c) eqn:H2;
    destruct (Qle_bool c' (- (5 # 100))) eqn:H3;
    destruct (Qle_bool c (- (5 # 100))) eqn:H4; simpl; try lia; exfalso;
    repeat match goal with
    | Ht : Qle_bool _ _ = true |- _ => apply Qle_bool_iff in Ht
    | Hf : Qle_bool ?a ?b = false |- _ =>
        assert (~ (a <= b)%Q) by (intros Hab; apply Qle_bool_iff in Hab; congruence);
        clear Hf
    end; lra.
Qed.

(** X5. Of two analysers, the one that gives the lowercased text of an
    email the lower compound score gives the email at least as high an
    urgency score: a more negative reading never lowers the urgency. *)
Theorem urgency_antitone_in_compound (sa sa' : SentimentAnalyzer) (now : Z) (e : email) :
  (@polarity_compound sa (lower (text_of e))
   <= @polarity_compound sa' (lower (text_of e)))%Q ->
  (snd (@determine_priority sa' now e) <= snd (@determine_priority sa now e))%Z.
Proof.
  intros Hle. rewrite !determine_priority_eq. cbv zeta. simpl snd.
  pose proof (label_antitone _ _ sa sa' (lower (text_of e)) eq_refl eq_refl Hle) as Hadj.
  unfold text_of in Hadj. lia.
Qed.

End PriorityAndSentiment.

(** Runs of the rules on the sample emails. *)
Lemma recent_email_is_urgent_witness :
  fst (@determine_priority neutral_analyzer (100 * hour) recent_mail) = Urgent.
Proof.
  apply (@recent_email_is_urgent neutral_analyzer (100 * hour) recent_mail).
  - vm_compute. reflexivity.
  - vm_compute. discriminate.
Defined.

Lemma old_email_without_keyword_not_urgent_witness :
  fst (@determine_priority (labelling Negative Negative) (100 * hour) old_mail)
  = Not_urgent.
Proof.
  apply (@old_email_without_keyword_not_urgent
           (labelling Negative Negative) (100 * hour) old_mail).
  - vm_compute. discriminate.
  - vm_compute. reflexivity.
Defined.

Lemma urgency_never_grows_with_age_witness :
  (snd (@determine_priority neutral_analyzer (100 * hour) recent_mail)
   <= snd (@determine_priority neutral_analyzer (99 * hour + hour / 2 + 1) recent_mail))%Z.
Proof.
  apply (@urgency_never_grows_with_age neutral_analyzer).
  vm_compute. discriminate.
Defined.

Lemma urgency_antitone_in_compound_witness :
  (snd (@determine_priority (labelling Positive Positive) (100 * hour) old_mail)
   <= snd (@determine_priority (labelling Negative Negative) (100 * hour) old_mail))%Z.
Proof.
  apply (urgency_antitone_in_compound (labelling Negative Negative)
           (labelling Positive Positive)).
  vm_compute. discriminate.
Defined.

(* ===================================================================== *)
(** * More on process_emails *)
(* ===================================================================== *)

Section Stored.
Context `{SentimentAnalyzer} `{Clock}.

Lemma extract_information_signals (e : email) :
  Re.has_match email_pattern (text_of e) = false ->
  extract_information e = Ok (signals_of e).
Proof.
  intros Hm. apply findall_nil_iff in Hm. unfold extract_information, signals_of.
  unfold text_of in *. rewrite Hm. reflexivity.
Qed.

Lemma priority_goes_with_score (now : Z) (e : email) :
  fst (determine_priority now e) = Urgent <-> (3 <= snd (determine_priority now e))%Z.
Proof.
  rewrite determine_priority_eq. cbv zeta. simpl fst. simpl snd.
  destruct (Z.leb_spec 3 (count_present priority_keywords
                            (lower (spaced (subject e) (body e)))
                          + sentiment_adjustment
                              (fst (analyze_sentiment (lower (spaced (subject e) (body e)))))
                          + recency_bonus now e)); split; intros; try lia; try reflexivity.
  discriminate.
Qed.

Lemma process_email_item (k : nat) (st : system) (e : email) :
  Re.has_match email_pattern (text_of e) = false ->
  counters_below st ->
  exists queue,
    process_email k st e
    = Ok {| emails := emails st;
            store := (store st ++ [item_of k (email_counter st) e])%list;
            processed_emails := (processed_emails st ++ [length (store st)])%list;
            priority_queue := queue;
            email_counter := S (email_counter st) |} /\
    queue ≡ₚ (priority_queue st
              ++ [((- snd (determine_priority (datetime_now k) e))%Z,
                   email_counter st, length (store st))])%list.
Proof.
  intros Hm Hbelow. unfold process_email, item_of, text_of.
  rewrite (extract_information_signals e Hm).
  destruct (analyze_sentiment (spaced (subject e) (body e))) as [label compound].
  destruct (determine_priority (datetime_now k) e) as [p score].
  cbn [mbind result_bind fst snd]. cbv zeta.
  match goal with
  | |- context [Heapq.heappush ?objs ?heap ?item] =>
      destruct (heappush_ok objs heap item) as (queue & -> & Hperm)
  end.
  { eapply Forall_impl; [exact Hbelow|]. unfold counter_of. simpl. intros; lia. }
  cbn [mbind result_bind]. exists queue. split; [reflexivity | exact Hperm].
Qed.

Lemma process_email_consistent (k : nat) (st : system) (e : email) :
  Re.has_match email_pattern (text_of e) = false ->
  consistent st ->
  exists st',
    process_email k st e = Ok st' /\
    emails st' = emails st /\
    store st' = (store st ++ [item_of k (email_counter st) e])%list /\
    email_counter st' = S (email_counter st) /\
    consistent st'.
Proof.
  intros Hm (Hbelow & Hkeyed & [Hlen Hrefs] & Hproc & Hqueue & Hlabels).
  destruct (process_email_item k st e Hm Hbelow) as (queue & -> & Hperm).
  eexists. split; [reflexivity|]. cbn [emails store email_counter].
  repeat (split; [reflexivity|]).
  unfold consistent, counters_below, keyed, well_formed.
  cbn [emails store email_counter priority_queue processed_emails].
  split; [|split; [|split; [|split; [|split]]]].
  - eapply Permutation_Forall; [symmetry; exact Hperm|]. apply Forall_app. split.
    + eapply Forall_impl; [exact Hbelow|]. simpl. intros; lia.
    + constructor; [unfold counter_of; simpl; lia | constructor].
  - eapply Permutation_Forall; [symmetry; exact Hperm|]. apply Forall_app. split.
    + eapply Forall_impl; [exact Hkeyed|]. simpl.
      intros x (pe0 & Hx & Hkey). exists pe0. split; [|exact Hkey].
      apply lookup_app_l_Some. exact Hx.
    + constructor; [|constructor]. eexists. cbn [fst snd]. split.
      * rewrite lookup_app_r, Nat.sub_diag by lia. reflexivity.
      * reflexivity.
  - split.
    + rewrite (Permutation_length Hperm), !length_app. cbn [length]. lia.
    + eapply Permutation_Forall; [symmetry; exact Hperm|]. apply Forall_app. split.
      * eapply Forall_impl; [exact Hrefs|]. simpl. intros x Hx.
        rewrite length_app. cbn [length]. lia.
      * constructor; [|constructor]. cbn [snd]. rewrite length_app. cbn [length]. lia.
  - rewrite Hproc, length_app. cbn [length].
    rewrite Nat.add_1_r, seq_S. reflexivity.
  - transitivity (map snd (priority_queue st
                           ++ [((- snd (determine_priority (datetime_now k) e))%Z,
                                email_counter st, length (store st))])%list).
    + apply Permutation_map, Hperm.
    + rewrite map_app. cbn [map snd]. apply Permutation_app_tail, Hqueue.
  - apply Forall_app. split; [exact Hlabels|]. constructor; [|constructor].
    apply priority_goes_with_score.
Qed.

Lemma process_loop_consistent (k : nat) (filtered : list email) (st : system) :
  consistent st ->
  Forall (fun e => Re.has_match email_pattern (text_of e) = false) filtered ->
  exists st',
    process_loop k filtered st = Ok st' /\
    emails st' = emails st /\
    store st' = (store st ++ items_from k (email_counter st) filtered)%list /\
    email_counter st' = email_counter st + length filtered /\
    consistent st'.
Proof.
  revert k st. induction filtered as [|e filtered IH]; intros k st Hcons Hall.
  - exists st. cbn [process_loop items_from length]. rewrite app_nil_r, Nat.add_0_r. auto.
  - inversion Hall as [|? ? Hm Hall']; subst. cbn [process_loop].
    destruct (process_email_consistent k st e Hm Hcons)
      as (st1 & -> & Hemails1 & Hstore1 & Hcount1 & Hcons1).
    cbn [mbind result_bind].
    destruct (IH (S k) st1 Hcons1 Hall') as (st' & -> & Hemails & Hstore & Hcount & Hcons').
    exists st'. split; [reflexivity|].
    split; [congruence|]. split; [|split; [|exact Hcons']].
    + rewrite Hstore, Hstore1, Hcount1, <- app_assoc. reflexivity.
    + rewrite Hcount, Hcount1. cbn [length]. lia.
Qed.


Lemma loaded_consistent (batch : list email) : consistent (loaded batch).
Proof. repeat split; try constructor; intros; reflexivity. Qed.

Lemma address_or_not (l : list email) :
  Exists (fun e => Re.has_match email_pattern (text_of e) = true) l \/
  Forall (fun e => Re.has_match email_pattern (text_of e) = false) l.
Proof.
  induction l as [|e l [IH|IH]].
  - right. constructor.
  - left. apply Exists_cons_tl, IH.
  - destruct (Re.has_match email_pattern (text_of e)) eqn:Hm.
    + left. apply Exists_cons_hd, Hm.
    + right. constructor; assumption.
Qed.


Lemma texts_cases (rows : list row) :
  (exists batch, texts rows = Ok batch /\ length batch = length rows) \/
  (texts rows = Raise AttributeError /\
   Exists (fun r => row_subject r = Not_text \/ row_body r = Not_text) rows).
Proof.
  induction rows as [|r rows IH]; [left; exists []; auto|].
  cbn [texts]. unfold as_email.
  destruct (row_subject r) as [s|] eqn:Hs;
    [|right; split; [reflexivity | apply Exists_cons_hd; auto]].
  destruct (row_body r) as [b|] eqn:Hb;
    [|right; split; [reflexivity | apply Exists_cons_hd; auto]].
  destruct IH as [(batch & -> & Hlen)|[-> Hex]].
  - left. eexists. split; [reflexivity|]. cbn [length]. rewrite Hlen. reflexivity.
  - right. split; [reflexivity | apply Exists_cons_tl, Hex].
Qed.

Lemma texts_all_text (rows : list row) (batch : list email) :
  texts rows = Ok batch ->
  ~ Exists (fun r => row_subject r = Not_text \/ row_body r = Not_text) rows.
Proof.
  revert batch. induction rows as [|r rows IH]; intros batch Ht Hex;
    [inversion Hex|].
  cbn [texts] in Ht. unfold as_email in Ht.
  destruct (row_subject r) as [s|] eqn:Hs; [|discriminate].
  destruct (row_body r) as [b|] eqn:Hb; [|discriminate].
  destruct (texts rows) as [rest|x] eqn:Hrest; [|discriminate].
  inversion Hex as [? ? [Hn|Hn]|? ? Hex']; subst; try congruence.
  exact (IH rest eq_refl Hex').
Qed.

Lemma texts_snoc (rows : list row) (batch : list email) (r : row) (e : email) :
  texts rows = Ok batch -> as_email r = Some e ->
  texts (rows ++ [r]) = Ok (batch ++ [e])%list.
Proof.
  revert batch. induction rows as [|r0 rows IH]; intros batch Ht He.
  - injection Ht as <-. cbn [app texts]. rewrite He. reflexivity.
  - cbn [app texts] in *. destruct (as_email r0) as [e0|]; [|discriminate].
    destruct (texts rows) as [rest|x] eqn:Hrest; [|discriminate].
    cbn [mbind result_bind] in Ht. injection Ht as <-.
    rewrite (IH rest eq_refl He). reflexivity.
Qed.

Lemma filter_rows_raises (rows filtered_emails : list row) :
  Exists (fun r => row_subject r = Not_text \/ row_body r = Not_text) rows ->
  filter_rows rows filtered_emails = Raise AttributeError.
Proof.
  revert filtered_emails. induction rows as [|r rows IH]; intros acc Hex;
    [inversion Hex|].
  cbn [filter_rows]. unfold cell_lower.
  destruct (row_subject r) as [s|] eqn:Hs; [|reflexivity].
  destruct (row_body r) as [b|] eqn:Hb; [|reflexivity].
  cbn [mbind result_bind].
  assert (Hex' : Exists (fun r => row_subject r = Not_text \/ row_body r = Not_text) rows).
  { inversion Hex as [? ? [Hn|Hn]|? ? Hex']; subst; congruence || exact Hex'. }
  destruct (_ || _)%bool; apply IH, Hex'.
Qed.

Lemma filter_rows_texts (rows filtered_emails : list row) (batch kept : list email) :
  texts rows = Ok batch -> texts filtered_emails = Ok kept ->
  exists filtered,
    filter_rows rows filtered_emails = Ok filtered /\
    texts filtered = Ok (kept ++ List.filter is_support batch)%list.
Proof.
  revert filtered_emails batch kept.
  induction rows as [|r rows IH]; intros acc batch kept Ht Hacc.
  - injection Ht as <-. exists acc. cbn [filter_rows List.filter].
    rewrite app_nil_r. auto.
  - cbn [texts] in Ht. destruct (as_email r) as [e|] eqn:He; [|discriminate].
    destruct (texts rows) as [rest|x] eqn:Hrest; [|discriminate].
    cbn [mbind result_bind] in Ht. injection Ht as <-.
    pose proof He as He'. unfold as_email in He'.
    destruct (row_subject r) as [s|] eqn:Hs; [|discriminate].
    destruct (row_body r) as [b|] eqn:Hb; [|discriminate].
    injection He' as <-.
    cbn [filter_rows]. rewrite Hs, Hb. cbn [cell_lower mbind result_bind].
    cbn [List.filter].
    change (any_in support_keywords (lower s) || any_in support_keywords (lower b))%bool
      with (is_support {| sender := row_sender r; subject := s; body := b;
                          sent_date := row_sent_date r; email_id := row_id r |}).
    destruct (is_support _).
    + destruct (IH (acc ++ [r])%list rest (kept ++ [_])%list eq_refl
                  (texts_snoc _ _ _ _ Hacc He)) as (filtered & Hf & Hk).
      exists filtered. split; [exact Hf|]. rewrite Hk, <- app_assoc. reflexivity.
    + exact (IH acc rest kept eq_refl Hacc).
Qed.

Lemma process_rows_raises (rows : list row) :
  Exists (fun r => row_subject r = Not_text \/ row_body r = Not_text) rows ->
  process_rows rows = Raise AttributeError.
Proof.
  intros Hex. unfold process_rows. rewrite (filter_rows_raises _ _ Hex). reflexivity.
Qed.

Lemma process_rows_texts (rows : list row) (batch : list email) :
  texts rows = Ok batch -> process_rows rows = process_emails (loaded batch).
Proof.
  intros Ht. unfold process_rows, process_emails, filter_emails.
  destruct (filter_rows_texts rows [] batch [] Ht eq_refl) as (filtered & -> & Hk).
  cbn [app] in Hk.
  cbn [mbind result_bind app emails loaded]. rewrite Ht, Hk.
  cbn [mbind result_bind].
  destruct (texts_cases filtered) as [(kept & Hk' & Hlen)|[Hk' _]]; [|congruence].
  assert (kept = List.filter is_support batch) by congruence. subst kept.
  rewrite Hlen. reflexivity.
Qed.

(** X7. [process_emails] right after a load ends in one of three ways. It
    ends in the [AttributeError] of [filter_emails], before any email is
    processed, exactly when the subject or the body of some loaded email,
    about support or not, is not text; in the [TypeError] of
    [extract_information] exactly when every cell is text and an email
    that passes the filter holds an address; and it returns, with the
    number of emails that pass the filter, exactly when every cell is
    text and none of those emails holds an address. *)
Theorem process_emails_fails_iff_address (rows : list row) :
  (process_rows rows = Raise AttributeError <->
   Exists (fun r => row_subject r = Not_text \/ row_body r = Not_text) rows) /\
  (process_rows rows = Raise TypeError <->
   exists batch,
     texts rows = Ok batch /\
     Exists (fun e => Re.has_match email_pattern (text_of e) = true)
            (List.filter is_support batch)) /\
  ((exists st n, process_rows rows = Ok (st, n)) <->
   exists batch,
     texts rows = Ok batch /\
     Forall (fun e => Re.has_match email_pattern (text_of e) = false)
            (List.filter is_support batch)) /\
  (forall st n batch,
     process_rows rows = Ok (st, n) -> texts rows = Ok batch ->
     n = length (List.filter is_support batch)).
Proof.
  destruct (texts_cases rows) as [(batch & Ht & _)|[Ht Hex]].
  - pose proof (texts_all_text rows batch Ht) as Hall.
    rewrite (process_rows_texts rows batch Ht).
    destruct (process_emails_loaded batch) as [Hraise Hok]. cbv zeta in *.
    assert (Hsame : forall batch', texts rows = Ok batch' -> batch' = batch)
      by (intros batch' Ht'; congruence).
    destruct (address_or_not (List.filter is_support batch)) as [Haddr|Hno].
    + rewrite (Hraise Haddr). split; [|split; [|split]].
      * split; [discriminate | intros Hex; destruct (Hall Hex)].
      * split; [intros _; exists batch; auto | reflexivity].
      * split; [intros (st & n & Hr); discriminate|].
        intros (batch' & Ht' & Hno). rewrite (Hsame batch' Ht') in Hno.
        exfalso. apply Exists_exists in Haddr as (e & He & Hm).
        pose proof (proj1 (Forall_forall _ _) Hno e He) as Hf. simpl in Hf. congruence.
      * intros st n batch' Hr. discriminate.
    + destruct (Hok Hno) as (st & Hrun & _). rewrite Hrun.
      split; [|split; [|split]].
      * split; [discriminate | intros Hex; destruct (Hall Hex)].
      * split; [discriminate|].
        intros (batch' & Ht' & Haddr). rewrite (Hsame batch' Ht') in Haddr.
        exfalso. apply Exists_exists in Haddr as (e & He & Hm).
        pose proof (proj1 (Forall_forall _ _) Hno e He) as Hf. simpl in Hf. congruence.
      * split; [intros _; exists batch; auto | intros _; eexists _, _; reflexivity].
      * intros st' n batch' Hr Ht'. rewrite (Hsame batch' Ht'). congruence.
  - rewrite (process_rows_raises rows Hex). split; [|split; [|split]].
    + split; [intros _; exact Hex | reflexivity].
    + split; [discriminate | intros (batch & Ht' & _); congruence].
    + split; [intros (st & n & Hr); discriminate | intros (batch & Ht' & _); congruence].
    + intros st n batch Hr. discriminate.
Qed.

(** X8. A second run of [process_emails] on a system in a consistent
    state stores every support email once more, after the dictionaries
    already there and under fresh counters, and leaves the system
    consistent. *)
Theorem process_emails_again (st : system) :
  consistent st ->
  Forall (fun e => Re.has_match email_pattern (text_of e) = false) (filter_emails st) ->
  exists st',
    process_emails st = Ok (st', length (filter_emails st)) /\
    store st' = (store st ++ items_from 0 (email_counter st) (filter_emails st))%list /\
    email_counter st' = email_counter st + length (filter_emails st) /\
    filter_emails st' = filter_emails st /\
    consistent st'.
Proof.
  intros Hcons Hall. unfold process_emails.
  destruct (process_loop_consistent 0 _ _ Hcons Hall)
    as (st' & -> & Hemails & Hstore & Hcount & Hcons').
  exists st'. split; [reflexivity|]. split; [exact Hstore|]. split; [exact Hcount|].
  split; [|exact Hcons']. unfold filter_emails. rewrite Hemails. reflexivity.
Qed.

End Stored.

(* ===================================================================== *)
(** * More on display_emails *)
(* ===================================================================== *)

Section Listing.

Lemma lookups_of_seq {A : Type} (l1 l2 : list A) :
  omap (fun r => (l1 ++ l2)%list !! r) (seq (length l1) (length l2)) = l2.
Proof.
  revert l1. induction l2 as [|x l2 IH]; intros l1; [reflexivity|].
  cbn [length seq omap list_omap].
  rewrite lookup_app_r, Nat.sub_diag by lia. cbn [lookup list_lookup]. f_equal.
  specialize (IH (l1 ++ [x])%list).
  rewrite <- app_assoc, length_app, Nat.add_1_r in IH. exact IH.
Qed.

Lemma deref_processed (st : system) :
  consistent st -> deref st (processed_emails st) = store st.
Proof.
  intros (_ & _ & _ & Hproc & _). unfold deref. rewrite Hproc.
  exact (lookups_of_seq [] (store st)).
Qed.

Lemma consistent_no_email (st : system) :
  consistent st -> processed_emails st = [] -> store st = [].
Proof.
  intros (_ & _ & _ & Hproc & _) Hnil. rewrite Hproc in Hnil.
  destruct (store st); [reflexivity | discriminate].
Qed.

Lemma display_emails_all (st : system) :
  consistent st -> display_emails st None = deref st (priority_emails st).
Proof.
  intros Hcons. unfold display_emails.
  destruct (processed_emails st) eqn:Hp; [|reflexivity].
  destruct Hcons as (_ & _ & [Hlen _] & _). rewrite Hp in Hlen.
  unfold priority_emails. destruct (priority_queue st); [reflexivity | discriminate].
Qed.

Lemma display_emails_filtered (st : system) (p : priority_label) :
  consistent st ->
  display_emails st (Some p)
  = List.filter (fun pe => bool_decide (priority pe = p)) (display_emails st None).
Proof.
  intros Hcons. rewrite (display_emails_all st Hcons). unfold display_emails.
  destruct (processed_emails st) eqn:Hp.
  - destruct Hcons as (_ & _ & [Hlen _] & _). rewrite Hp in Hlen.
    unfold priority_emails. destruct (priority_queue st); [reflexivity | discriminate].
  - apply filter_ext. intros pe. destruct (priority pe), p; reflexivity.
Qed.

(** X9. In a consistent state the full listing of [display_emails] shows
    every processed email exactly once: it is a rearrangement of the
    stored dictionaries. *)
Theorem display_lists_each_processed_email_once (st : system) :
  consistent st ->
  display_emails st None ≡ₚ store st /\
  length (display_emails st None) = length (processed_emails st).
Proof.
  intros Hcons.
  assert (Hperm : display_emails st None ≡ₚ store st).
  { rewrite (display_emails_all st Hcons), <- (deref_processed st Hcons).
    unfold deref. apply omap_Permutation. unfold priority_emails.
    destruct Hcons as (_ & _ & _ & _ & Hqueue & _).
    rewrite <- Hqueue. apply Permutation_map. apply sorted_perm. }
  split; [exact Hperm|]. rewrite Hperm.
  destruct Hcons as (_ & _ & _ & Hproc & _). rewrite Hproc, length_seq. reflexivity.
Qed.

Lemma no_urgent_below (x : processed_email) (l : list processed_email) :
  (urgency_score x < 3)%Z ->
  Forall (fun y => (urgency_score y <= urgency_score x)%Z) l ->
  Forall (fun pe => priority pe = Urgent <-> (3 <= urgency_score pe)%Z) l ->
  List.filter (fun pe => bool_decide (priority pe = Urgent)) l = [].
Proof.
  intros Hx Hle Hlabels. induction l as [|y l IH]; [reflexivity|].
  inversion Hle as [|? ? Hy Hle']; subst.
  inversion Hlabels as [|? ? Hyl Hlabels']; subst.
  cbn [List.filter]. rewrite bool_decide_false; [exact (IH Hle' Hlabels')|].
  intros Hu. apply Hyl in Hu. lia.
Qed.

Lemma urgent_first (l : list processed_email) :
  StronglySorted (fun a b => (urgency_score b <= urgency_score a)%Z) l ->
  Forall (fun pe => priority pe = Urgent <-> (3 <= urgency_score pe)%Z) l ->
  l = (List.filter (fun pe => bool_decide (priority pe = Urgent)) l
       ++ List.filter (fun pe => bool_decide (priority pe = Not_urgent)) l)%list.
Proof.
  intros Hsorted Hlabels. induction Hsorted as [|x l Hl IH Hx]; [reflexivity|].
  inversion Hlabels as [|? ? Hxl Hlabels']; subst. specialize (IH Hlabels').
  cbn [List.filter]. destruct (priority x) eqn:Hp.
  - rewrite bool_decide_true, bool_decide_false by congruence.
    cbn [app]. f_equal. exact IH.
  - rewrite bool_decide_false, bool_decide_true by congruence.
    assert (Hlow : (urgency_score x < 3)%Z).
    { destruct (Z.ltb_spec (urgency_score x) 3) as [Hlt|Hge]; [exact Hlt|].
      apply Hxl in Hge. congruence. }
    rewrite (no_urgent_below x l Hlow Hx Hlabels') in *.
    cbn [app] in *. f_equal. exact IH.
Qed.

Lemma display_emails_labels (st : system) :
  consistent st ->
  Forall (fun pe => priority pe = Urgent <-> (3 <= urgency_score pe)%Z)
         (display_emails st None).
Proof.
  intros Hcons.
  assert (Hperm : display_emails st None ≡ₚ store st).
  { rewrite (display_emails_all st Hcons), <- (deref_processed st Hcons).
    unfold deref. apply omap_Permutation. unfold priority_emails.
    destruct Hcons as (_ & _ & _ & _ & Hqueue & _).
    rewrite <- Hqueue. apply Permutation_map. apply sorted_perm. }
  rewrite Hperm. apply Hcons.
Qed.

(** X10. In a consistent state the Urgent emails come first in the full
    listing: the listing is the Urgent-only listing followed by the
    Not-urgent-only one, so an email has the same number in the
    Urgent-only listing as in the full one. *)
Theorem urgent_listing_is_prefix (st : system) :
  consistent st ->
  display_emails st None
  = (display_emails st (Some Urgent) ++ display_emails st (Some Not_urgent))%list /\
  (forall i pe, display_emails st (Some Urgent) !! i = Some pe ->
                display_emails st None !! i = Some pe).
Proof.
  intros Hcons.
  assert (Hsplit : display_emails st None
                   = (display_emails st (Some Urgent)
                      ++ display_emails st (Some Not_urgent))%list).
  { rewrite !(display_emails_filtered st _ Hcons). apply urgent_first.
    - apply display_emails_descending. apply Hcons.
    - apply display_emails_labels, Hcons. }
  split; [exact Hsplit|]. intros i pe Hi. rewrite Hsplit.
  apply lookup_app_l_Some. exact Hi.
Qed.

End Listing.

Section TieOrder.

Lemma deref_filter_score (st : system) (k : Z) (l : list entry) :
  Forall (fun x : entry =>
            exists pe, store st !! snd x = Some pe /\
                       fst (fst x) = (- urgency_score pe)%Z) l ->
  List.filter (fun pe => (urgency_score pe =? k)%Z) (deref st (map snd l))
  = deref st (map snd (List.filter (fun x : entry => (fst (fst x) =? - k)%Z) l)).
Proof.
  unfold deref. induction 1 as [|x l (pe & Hpe & Hkey) _ IH]; [reflexivity|].
  cbn [map omap list_omap List.filter]. rewrite Hpe. cbn [List.filter]. rewrite Hkey.
  destruct (Z.eqb_spec (urgency_score pe) k) as [Hk|Hk].
  - rewrite (proj2 (Z.eqb_eq _ _)) by lia.
    cbn [map omap list_omap]. rewrite Hpe. f_equal. exact IH.
  - rewrite (proj2 (Z.eqb_neq _ _)) by lia. exact IH.
Qed.

(** X11. In a consistent state the full listing goes from the highest
    score to the lowest, and the emails of one score come in the order
    they have in the array of the heap [priority_queue]. *)
Theorem listing_is_stable_sort_of_heap_array (st : system) :
  consistent st ->
  StronglySorted (fun a b => (urgency_score b <= urgency_score a)%Z)
                 (display_emails st None) /\
  (forall k,
     List.filter (fun pe => (urgency_score pe =? k)%Z) (display_emails st None)
     = List.filter (fun pe => (urgency_score pe =? k)%Z)
                   (deref st (map snd (priority_queue st)))).
Proof.
  intros Hcons. split; [apply display_emails_descending, Hcons|].
  intros k. rewrite (display_emails_all st Hcons). unfold priority_emails.
  assert (Hkeyed : keyed st) by apply Hcons. unfold keyed in Hkeyed.
  rewrite !deref_filter_score.
  - rewrite (sorted_stable (fun x : entry => fst (fst x))). reflexivity.
  - exact Hkeyed.
  - rewrite sorted_perm. exact Hkeyed.
Qed.

End TieOrder.

(* ===================================================================== *)
(** * display_analytics *)
(* ===================================================================== *)

Section Counts.
Context {K : Type} `{EqDecision K}.

Lemma sum_counts_bump (k : K) (counts : list (K * Z)) :
  sum_counts (bump k counts) = (sum_counts counts + 1)%Z.
Proof.
  induction counts as [|[k' n] counts IH]; [reflexivity|].
  unfold sum_counts in *. cbn [bump].
  destruct (decide (k = k')); cbn [fold_right snd]; lia.
Qed.

Lemma keys_in_bump (k k' : K) (counts : list (K * Z)) :
  In k' (map fst (bump k counts)) <-> k' = k \/ In k' (map fst counts).
Proof.
  induction counts as [|[k0 n] counts IH].
  - cbn. intuition congruence.
  - cbn [bump]. destruct (decide (k = k0)) as [->|Hne]; cbn [map fst In].
    + intuition congruence.
    + rewrite IH. intuition congruence.
Qed.

Lemma classic_keys (k k0 : K) (counts : list (K * Z)) :
  In k (map fst (bump k0 counts)) -> k = k0 \/ In k (map fst counts).
Proof. apply keys_in_bump. Qed.

Lemma keys_bump (k : K) (counts : list (K * Z)) :
  NoDup (map fst counts) -> NoDup (map fst (bump k counts)).
Proof.
  induction counts as [|[k0 n] counts IH]; intros Hnd.
  - cbn. apply NoDup_singleton.
  - cbn [map fst] in Hnd. apply NoDup_cons in Hnd as [Hk0 Hnd]. cbn [bump].
    destruct (decide (k = k0)) as [->|Hne]; cbn [map fst].
    + apply NoDup_cons. auto.
    + apply NoDup_cons. split; [|exact (IH Hnd)].
      rewrite list_elem_of_In, keys_in_bump. rewrite list_elem_of_In in Hk0.
      intros [Heq|Hin]; [congruence | tauto].
Qed.

Lemma count_for_bump (k k' : K) (counts : list (K * Z)) :
  count_for k' (bump k counts)
  = (count_for k' counts + if decide (k = k') then 1 else 0)%Z.
Proof.
  unfold count_for. induction counts as [|[k0 n] counts IH].
  - cbn. destruct (decide (k = k')) as [->|Hne].
    + rewrite bool_decide_true by reflexivity. reflexivity.
    + rewrite bool_decide_false by exact Hne. reflexivity.
  - cbn [bump]. destruct (decide (k = k0)) as [->|Hne].
    + cbn [List.find fst]. destruct (decide (k0 = k')) as [->|Hne'].
      * rewrite !bool_decide_true by reflexivity. reflexivity.
      * rewrite !bool_decide_false by exact Hne'.
        destruct (List.find _ counts) as [[? ?]|]; lia.
    + cbn [List.find fst]. destruct (decide (k0 = k')) as [->|Hne'].
      * rewrite bool_decide_true by reflexivity.
        destruct (decide (k = k')); [congruence | lia].
      * rewrite bool_decide_false by exact Hne'. exact IH.
Qed.

Lemma positive_bump (k : K) (counts : list (K * Z)) :
  Forall (fun kn => (1 <= snd kn)%Z) counts ->
  Forall (fun kn => (1 <= snd kn)%Z) (bump k counts).
Proof.
  induction 1 as [|[k0 n] counts Hn Hrest IH]; cbn [bump].
  - constructor; [simpl; lia | constructor].
  - destruct (decide (k = k0)); constructor; cbn [snd] in *; try lia; assumption.
Qed.

Lemma count_by_from {A : Type} (key : A -> K) (items : list A) (counts : list (K * Z)) :
  let result := fold_left (fun counts x => bump (key x) counts) items counts in
  (forall k, count_for k result
             = (count_for k counts
                + Z.of_nat (length (List.filter (fun x => bool_decide (key x = k)) items)))%Z) /\
  sum_counts result = (sum_counts counts + Z.of_nat (length items))%Z /\
  (NoDup (map fst counts) -> NoDup (map fst result)) /\
  (forall k, In k (map fst result) <->
             In k (map fst counts) \/ In k (map key items)) /\
  (Forall (fun kn => (1 <= snd kn)%Z) counts ->
   Forall (fun kn => (1 <= snd kn)%Z) result).
Proof.
  revert counts. induction items as [|x items IH]; intros counts; cbn [fold_left].
  - cbn. repeat split; intros; try lia; try tauto.
  - destruct (IH (bump (key x) counts)) as (Hcount & Hsum & Hnd & Hkeys & Hpos).
    cbv zeta. repeat split.
    + intros k. rewrite Hcount, count_for_bump. cbn [List.filter].
      destruct (decide (key x = k)) as [Hk|Hk].
      * rewrite bool_decide_true by exact Hk. cbn [length]. lia.
      * rewrite bool_decide_false by exact Hk. lia.
    + rewrite Hsum, sum_counts_bump. cbn [length]. lia.
    + intros Hc. apply Hnd. apply keys_bump, Hc.
    + rewrite Hkeys. intros [Hin|Hin].
      * destruct (classic_keys k (key x) counts Hin) as [->|Hin'];
          [right; left; reflexivity | left; exact Hin'].
      * right. right. exact Hin.
    + rewrite Hkeys. intros [Hin|[<-|Hin]].
      * left. apply keys_in_bump. right. exact Hin.
      * left. apply keys_in_bump. left. reflexivity.
      * right. exact Hin.
    + intros Hc. apply Hpos, positive_bump, Hc.
Qed.

End Counts.

Section Analytics.

Lemma count_by_tallies {K : Type} `{EqDecision K} (key : processed_email -> K)
    (items : list processed_email) :
  tallies key items (count_by key items) /\
  sum_counts (count_by key items) = Z.of_nat (length items).
Proof.
  destruct (count_by_from key items []) as (Hcount & Hsum & Hnd & Hkeys & Hpos).
  cbv zeta in *. unfold tallies, count_by. repeat split.
  - apply Hnd. constructor.
  - intros Hin. apply Hkeys in Hin as [[]|Hin]. exact Hin.
  - intros Hin. apply Hkeys. right. exact Hin.
  - intros k. rewrite Hcount. reflexivity.
  - apply Hpos. constructor.
  - rewrite Hsum. reflexivity.
Qed.

Lemma count_resolved_from (items : list processed_email) (acc : Z) :
  fold_left (fun acc pe => match status pe with
                           | Resolved => (acc + 1)%Z
                           | Pending => acc
                           end) items acc
  = (acc + with_status Resolved items)%Z.
Proof.
  unfold with_status. revert acc. induction items as [|pe items IH]; intros acc.
  - cbn. lia.
  - cbn [fold_left List.filter]. rewrite IH.
    destruct (status pe); [rewrite bool_decide_false by discriminate
                          | rewrite bool_decide_true by reflexivity];
      cbn [length]; lia.
Qed.

Lemma with_status_total (items : list processed_email) :
  (with_status Resolved items + with_status Pending items)%Z = Z.of_nat (length items).
Proof.
  unfold with_status. induction items as [|pe items IH]; [reflexivity|].
  cbn [List.filter length]. destruct (status pe).
  - rewrite bool_decide_false, bool_decide_true by congruence. cbn [length]. lia.
  - rewrite bool_decide_true, bool_decide_false by congruence. cbn [length]. lia.
Qed.

Lemma display_analytics_consistent (st : system) (a : analytics) :
  consistent st -> display_analytics st = Some a ->
  a = {| total_emails := Z.of_nat (length (store st));
         resolved_emails := with_status Resolved (store st);
         pending_emails := (Z.of_nat (length (store st))
                            - with_status Resolved (store st))%Z;
         sentiment_counts := count_by sentiment (store st);
         priority_counts := count_by priority (store st);
         category_counts := count_by category (store st) |}.
Proof.
  intros Hcons Ha. unfold display_analytics in Ha.
  rewrite (deref_processed st Hcons) in Ha.
  assert (Hlen : length (processed_emails st) = length (store st)).
  { destruct Hcons as (_ & _ & _ & Hproc & _). rewrite Hproc, length_seq. reflexivity. }
  rewrite Hlen in Ha.
  destruct (processed_emails st); [discriminate|]. injection Ha as <-.
  unfold count_resolved. rewrite count_resolved_from. f_equal; lia.
Qed.

(** X12. In a consistent state with a processed email, the numbers of
    [display_analytics] add up: the total is the number of processed
    emails, Resolved and Pending are the numbers of emails with that
    status and sum to the total, and the counts of each of the three
    distributions sum to the total. *)
Theorem analytics_totals (st : system) (a : analytics) :
  consistent st -> display_analytics st = Some a ->
  total_emails a = Z.of_nat (length (processed_emails st)) /\
  resolved_emails a = with_status Resolved (store st) /\
  pending_emails a = with_status Pending (store st) /\
  (resolved_emails a + pending_emails a)%Z = total_emails a /\
  sum_counts (sentiment_counts a) = total_emails a /\
  sum_counts (priority_counts a) = total_emails a /\
  sum_counts (category_counts a) = total_emails a.
Proof.
  intros Hcons Ha. rewrite (display_analytics_consistent st a Hcons Ha).
  cbn [total_emails resolved_emails pending_emails sentiment_counts
       priority_counts category_counts].
  pose proof (with_status_total (store st)).
  destruct Hcons as (_ & _ & _ & Hproc & _). rewrite Hproc, length_seq.
  repeat split; try lia; apply count_by_tallies.
Qed.

(** X13. In a consistent state each distribution of [display_analytics]
    lists exactly the labels that some processed email has, each once and
    with the number of emails that have it; a label without an email is
    not listed. *)
Theorem analytics_distributions (st : system) (a : analytics) :
  consistent st -> display_analytics st = Some a ->
  tallies sentiment (store st) (sentiment_counts a) /\
  tallies priority (store st) (priority_counts a) /\
  tallies category (store st) (category_counts a).
Proof.
  intros Hcons Ha. rewrite (display_analytics_consistent st a Hcons Ha).
  cbn [sentiment_counts priority_counts category_counts].
  repeat split; apply count_by_tallies.
Qed.

End Analytics.

(* ===================================================================== *)
(** * More on show_email_detail *)
(* ===================================================================== *)

Section DetailEffects.

Lemma show_email_detail_store (st st' : system) (index : Z) (choice reply : string)
    (out : shown) :
  show_email_detail st index choice reply = Ok (st', out) ->
  store st' = store st \/
  exists r pe pe',
    priority_emails st !! Z.to_nat (index - 1) = Some r /\
    store st !! r = Some pe /\ same_but_workflow pe pe' /\
    store st' = <[r := pe']> (store st).
Proof.
  intros Hshow.
  destruct (show_email_detail_effect _ _ _ _ _ _ Hshow)
    as (_ & _ & _ & _ & [Hst|(r & pe & Hr & Hpe & _ & Hst)]); [left; exact Hst|].
  right. exists r, pe.
  destruct Hst as [Hst|[v Hst]]; eexists; (split; [exact Hr|]);
    (split; [exact Hpe|]); (split; [|exact Hst]); repeat split.
Qed.

Lemma show_email_detail_consistent (st st' : system) (index : Z)
    (choice reply : string) (out : shown) :
  consistent st ->
  show_email_detail st index choice reply = Ok (st', out) ->
  consistent st'.
Proof.
  intros (Hbelow & Hkeyed & [Hlen Hrefs] & Hproc & Hqueue & Hlabels) Hshow.
  destruct (show_email_detail_effect _ _ _ _ _ _ Hshow)
    as (_ & Hp & Hq & Hc & _).
  destruct (show_email_detail_store _ _ _ _ _ _ Hshow)
    as [Hst|(r & pe & pe' & _ & Hpe & Hrel & Hst)].
  - unfold consistent, counters_below, keyed, well_formed.
    rewrite Hp, Hq, Hc, Hst. auto 10.
  - unfold consistent, counters_below, keyed, well_formed.
    rewrite Hp, Hq, Hc, Hst, length_insert.
    destruct Hrel as (_ & _ & Hprio & Hscore & _).
    repeat split; try assumption.
    + eapply Forall_impl; [exact Hkeyed|]. simpl.
      intros x (pe0 & Hx & Hkey). destruct (decide (r = snd x)) as [->|Hne].
      * exists pe'. rewrite list_lookup_insert_eq by (eapply lookup_lt_Some; exact Hx).
        split; [reflexivity|]. assert (pe0 = pe) by congruence. subst pe0. lia.
      * exists pe0. rewrite list_lookup_insert_ne by exact Hne. auto.
    + apply Forall_insert; [exact Hlabels|].
      eapply Forall_lookup_1 in Hlabels; [|exact Hpe]. simpl in Hlabels.
      rewrite <- Hprio, <- Hscore. exact Hlabels.
Qed.

Lemma with_store_same (st : system) : with_store st (store st) = st.
Proof. destruct st. reflexivity. Qed.

Lemma show_email_detail_outside (st : system) (index : Z) (choice reply : string) :
  (index < 1 \/ Z.of_nat (length (processed_emails st)) < index)%Z ->
  show_email_detail st index choice reply = Ok (st, Invalid_index).
Proof.
  intros Hout. unfold show_email_detail.
  destruct (Z.ltb_spec index 1); [reflexivity|].
  destruct (Z.ltb_spec (Z.of_nat (length (processed_emails st))) index);
    [reflexivity | lia].
Qed.

Lemma show_email_detail_inside (st : system) (index : Z) (choice reply : string) :
  well_formed st ->
  (1 <= index <= Z.of_nat (length (processed_emails st)))%Z ->
  exists r pe,
    priority_emails st !! Z.to_nat (index - 1) = Some r /\
    store st !! r = Some pe /\
    display_emails st None !! Z.to_nat (index - 1) = Some pe /\
    show_email_detail st index choice reply
    = Ok (with_store st (<[r := edited choice reply pe]> (store st)), Detail pe).
Proof.
  intros Hwf Hin.
  pose proof (priority_emails_valid st Hwf) as Hvalid.
  pose proof (priority_emails_length st) as Hlen.
  destruct Hwf as [Hsame Hrefs].
  destruct (lookup_lt_is_Some_2 (priority_emails st) (Z.to_nat (index - 1)))
    as [r Hr]; [lia|].
  assert (Hr' : r < length (store st)).
  { eapply Forall_lookup_1 in Hvalid; [exact Hvalid | exact Hr]. }
  destruct (lookup_lt_is_Some_2 (store st) r Hr') as [pe Hpe].
  exists r, pe. split; [exact Hr|]. split; [exact Hpe|]. split.
  - unfold display_emails.
    destruct (processed_emails st) eqn:Hp; [simpl in Hin; lia|].
    rewrite deref_lookup by exact Hvalid. rewrite Hr. exact Hpe.
  - unfold show_email_detail, edited.
    destruct (Z.ltb_spec index 1); [lia|].
    destruct (Z.ltb_spec (Z.of_nat (length (processed_emails st))) index); [lia|].
    cbn [orb]. rewrite Hr, Hpe.
    destruct (String.eqb (strip choice) "1"); [reflexivity|].
    destruct (String.eqb (strip choice) "2"); cbn [andb];
      [destruct (negb _); [reflexivity|]|];
      rewrite (list_insert_id _ _ _ Hpe), with_store_same; reflexivity.
Qed.

(** X14. From a consistent state [show_email_detail] raises no exception,
    whatever the index and the two lines typed, and it leaves the state
    consistent. *)
Theorem show_email_detail_safe (st : system) (index : Z) (choice reply : string) :
  consistent st ->
  exists st' out,
    show_email_detail st index choice reply = Ok (st', out) /\ consistent st'.
Proof.
  intros Hcons.
  assert (Hwf : well_formed st) by apply Hcons.
  destruct (Z.ltb_spec index 1) as [Hlow|Hlow].
  { exists st, Invalid_index. split; [apply show_email_detail_outside; lia | exact Hcons]. }
  destruct (Z.ltb_spec (Z.of_nat (length (processed_emails st))) index) as [Hhigh|Hhigh].
  { exists st, Invalid_index. split; [apply show_email_detail_outside; lia | exact Hcons]. }
  destruct (show_email_detail_inside st index choice reply Hwf) as (r & pe & _ & _ & _ & Hshow);
    [lia|].
  eexists _, _. split; [exact Hshow|].
  eapply show_email_detail_consistent; eassumption.
Qed.

End DetailEffects.

(* ===================================================================== *)
(** * Runs of the added properties on the sample system *)
(* ===================================================================== *)

Lemma sample_batch_without_address :
  Forall (fun e => Re.has_match email_pattern (text_of e) = false)
         (List.filter is_support sample_batch).
Proof.
  change (List.filter is_support sample_batch) with (filter_emails (loaded sample_batch)).
  rewrite sample_selected. repeat constructor.
Defined.

Lemma sample_system_consistent : consistent sample_system.
Proof.
  destruct (@process_loop_consistent neutral_analyzer ticking_clock 0
              (List.filter is_support sample_batch) (loaded sample_batch)
              (loaded_consistent sample_batch) sample_batch_without_address)
    as (st & Hrun & _ & _ & _ & Hcons).
  unfold sample_system, process_emails, filter_emails. cbn [emails loaded].
  rewrite Hrun. exact Hcons.
Defined.


Lemma process_emails_again_witness :
  exists st',
    @process_emails neutral_analyzer ticking_clock sample_system
    = Ok (st', length (filter_emails sample_system)) /\ consistent st'.
Proof.
  destruct (@process_emails_again neutral_analyzer ticking_clock sample_system
              sample_system_consistent) as (st' & Hrun & _ & _ & _ & Hcons).
  - assert (Hsame : filter_emails sample_system = List.filter is_support sample_batch)
      by (vm_compute; reflexivity).
    rewrite Hsame. exact sample_batch_without_address.
  - exists st'. split; assumption.
Defined.

Lemma display_lists_each_processed_email_once_witness :
  display_emails sample_system None ≡ₚ store sample_system.
Proof.
  apply (display_lists_each_processed_email_once sample_system sample_system_consistent).
Defined.

Lemma urgent_listing_is_prefix_witness :
  display_emails sample_system None
  = (display_emails sample_system (Some Urgent)
     ++ display_emails sample_system (Some Not_urgent))%list.
Proof.
  apply (urgent_listing_is_prefix sample_system sample_system_consistent).
Defined.

Lemma listing_is_stable_sort_of_heap_array_witness :
  StronglySorted (fun a b => (urgency_score b <= urgency_score a)%Z)
                 (display_emails sample_system None).
Proof.
  apply (listing_is_stable_sort_of_heap_array sample_system sample_system_consistent).
Defined.

Lemma analytics_totals_witness :
  exists a, display_analytics sample_system = Some a /\ total_emails a = 3%Z /\
            (resolved_emails a + pending_emails a)%Z = total_emails a.
Proof.
  eexists. split; [vm_compute; reflexivity|].
  split; [vm_compute; reflexivity|].
  eapply (analytics_totals sample_system _ sample_system_consistent).
  vm_compute. reflexivity.
Defined.

Lemma analytics_distributions_witness :
  exists a, display_analytics sample_system = Some a /\
            tallies category (store sample_system) (category_counts a).
Proof.
  eexists. split; [vm_compute; reflexivity|].
  eapply (analytics_distributions sample_system _ sample_system_consistent).
  vm_compute. reflexivity.
Defined.

Lemma show_email_detail_safe_witness :
  exists st' out,
    show_email_detail sample_system 7 "2" "Done" = Ok (st', out) /\ consistent st'.
Proof.
  apply (show_email_detail_safe sample_system 7 "2" "Done" sample_system_consistent).
Defined.

(* ===================================================================== *)
(** * The effect of show_email_detail on the listing *)
(* ===================================================================== *)

Section DetailListing.

Lemma omap_same {A B : Type} (f g : A -> option B) (l : list A) :
  (forall x, In x l -> f x = g x) -> omap f l = omap g l.
Proof.
  induction l as [|x l IH]; intros Hfg; [reflexivity|].
  cbn [omap list_omap]. rewrite (Hfg x (or_introl eq_refl)).
  rewrite IH; [reflexivity|]. intros y Hy. apply Hfg. right. exact Hy.
Qed.

Lemma lookups_after_insert {A : Type} (l : list A) (rs : list nat) (i r : nat) (x : A) :
  NoDup rs -> rs !! i = Some r -> Forall (fun q => q < length l) rs ->
  omap (fun q => <[r := x]> l !! q) rs = <[i := x]> (omap (fun q => l !! q) rs).
Proof.
  revert i. induction rs as [|q rs IH]; intros i Hnd Hi Hvalid; [discriminate|].
  apply NoDup_cons in Hnd as [Hq Hnd].
  inversion Hvalid as [|? ? Hql Hvalid']; subst.
  destruct (lookup_lt_is_Some_2 l q Hql) as [y Hy].
  cbn [omap list_omap]. rewrite Hy. destruct i as [|i].
  - injection Hi as ->. rewrite list_lookup_insert_eq by exact Hql.
    cbn. f_equal. apply omap_same. intros q' Hq'.
    apply list_lookup_insert_ne. intros <-. apply Hq, list_elem_of_In, Hq'.
  - cbn in Hi. assert (Hne : r <> q).
    { intros ->. apply Hq. eapply list_elem_of_lookup_2. exact Hi. }
    rewrite list_lookup_insert_ne by exact Hne. rewrite Hy. cbn. f_equal.
    apply IH; assumption.
Qed.

Lemma priority_emails_nodup (st : system) : consistent st -> NoDup (priority_emails st).
Proof.
  intros (_ & _ & _ & Hproc & Hqueue & _). unfold priority_emails.
  assert (Hperm : map snd (sorted (fun x : entry => fst (fst x)) (priority_queue st))
                  ≡ₚ seq 0 (length (store st))).
  { rewrite <- Hproc, <- Hqueue. apply Permutation_map, sorted_perm. }
  rewrite Hperm. apply NoDup_ListNoDup, List.seq_NoDup.
Qed.

(** X15. In a consistent state, [show_email_detail] with an index from 1
    to the number of processed emails changes the full listing at that
    place only: the email shown is replaced by itself marked Resolved
    (choice 1), by itself with the trimmed reply as response (choice 2 and
    a reply that is not blank), or by itself unchanged (anything else). *)
Theorem show_email_detail_changes_one_place (st : system) (index : Z)
    (choice reply : string) :
  consistent st ->
  (1 <= index <= Z.of_nat (length (processed_emails st)))%Z ->
  exists pe st',
    display_emails st None !! Z.to_nat (index - 1) = Some pe /\
    show_email_detail st index choice reply = Ok (st', Detail pe) /\
    display_emails st' None
    = <[Z.to_nat (index - 1) := edited choice reply pe]> (display_emails st None).
Proof.
  intros Hcons Hin. assert (Hwf : well_formed st) by apply Hcons.
  destruct (show_email_detail_inside st index choice reply Hwf Hin)
    as (r & pe & Hr & Hpe & Hview & Hshow).
  exists pe. eexists. split; [exact Hview|]. split; [exact Hshow|].
  pose proof (show_email_detail_consistent _ _ _ _ _ _ Hcons Hshow) as Hcons'.
  rewrite (display_emails_all _ Hcons'), (display_emails_all _ Hcons).
  unfold deref, priority_emails, with_store. cbn [store priority_queue].
  apply lookups_after_insert.
  - apply (priority_emails_nodup st Hcons).
  - exact Hr.
  - apply priority_emails_valid, Hwf.
Qed.

End DetailListing.

Lemma show_email_detail_changes_one_place_witness :
  exists pe st',
    display_emails sample_system None !! Z.to_nat (2 - 1) = Some pe /\
    show_email_detail sample_system 2 "2" " On it " = Ok (st', Detail pe) /\
    display_emails st' None
    = <[Z.to_nat (2 - 1) := edited "2" " On it " pe]> (display_emails sample_system None).
Proof.
  apply (show_email_detail_changes_one_place sample_system 2 "2" " On it "
           sample_system_consistent).
  vm_compute. split; discriminate.
Defined.

Section DetailChoices.

Lemma edited_twice (choice reply : string) (pe : processed_email) :
  edited choice reply (edited choice reply pe) = edited choice reply pe.
Proof.
  unfold edited. destruct (String.eqb (strip choice) "1"); [reflexivity|].
  destruct (String.eqb (strip choice) "2" && negb (String.eqb (strip reply) EmptyString))%bool;
    reflexivity.
Qed.

(** X16. Whatever the state, [show_email_detail] changes nothing when the
    choice, once trimmed, is neither 1 nor 2, and when it is 2 with a
    reply that is blank once trimmed: Enter keeps the current response. *)
Theorem show_email_detail_keeps_state (st st' : system) (index : Z)
    (choice reply : string) (out : shown) :
  strip choice <> "1" ->
  strip choice <> "2" \/ strip reply = EmptyString ->
  show_email_detail st index choice reply = Ok (st', out) ->
  st' = st.
Proof.
  intros H1 H2. unfold show_email_detail.
  destruct (_ || _)%bool; [intros [= <- _]; reflexivity|].
  destruct (priority_emails st !! Z.to_nat (index - 1)) as [r|]; [|discriminate].
  destruct (store st !! r) as [pe|]; [|discriminate].
  destruct (String.eqb_spec (strip choice) "1") as [Heq|_]; [contradiction|].
  destruct (String.eqb_spec (strip choice) "2") as [Heq|_];
    [|intros [= <- _]; reflexivity].
  destruct H2 as [H2|H2]; [contradiction|]. rewrite H2. cbn.
  intros [= <- _]. reflexivity.
Qed.

(** X17. In a consistent state, giving [show_email_detail] the same index
    and the same lines a second time changes nothing more: marking an
    email resolved twice, or entering the same response twice, is the
    same as doing it once. *)
Theorem show_email_detail_repeated (st st1 : system) (index : Z)
    (choice reply : string) (out : shown) :
  consistent st ->
  show_email_detail st index choice reply = Ok (st1, out) ->
  exists out', show_email_detail st1 index choice reply = Ok (st1, out').
Proof.
  intros Hcons Hshow. assert (Hwf : well_formed st) by apply Hcons.
  pose proof (show_email_detail_consistent _ _ _ _ _ _ Hcons Hshow) as Hcons1.
  assert (Hwf1 : well_formed st1) by apply Hcons1.
  destruct (show_email_detail_effect _ _ _ _ _ _ Hshow) as (_ & Hproc & Hq & _ & _).
  destruct (Z.ltb_spec index 1) as [Hlow|Hlow].
  { exists Invalid_index. apply show_email_detail_outside. lia. }
  destruct (Z.ltb_spec (Z.of_nat (length (processed_emails st))) index) as [Hhigh|Hhigh].
  { exists Invalid_index. apply show_email_detail_outside. rewrite Hproc. lia. }
  destruct (show_email_detail_inside st index choice reply Hwf)
    as (r & pe & Hr & Hpe & _ & Hshow0); [lia|].
  rewrite Hshow0 in Hshow. injection Hshow as <- <-.
  destruct (show_email_detail_inside
              (with_store st (<[r := edited choice reply pe]> (store st)))
              index choice reply Hwf1) as (r' & pe' & Hr' & Hpe' & _ & Hshow1).
  { cbn [processed_emails with_store]. lia. }
  unfold priority_emails, with_store in Hr'. cbn [priority_queue] in Hr'.
  fold (priority_emails st) in Hr'. rewrite Hr in Hr'. injection Hr' as <-.
  cbn [store with_store] in Hpe'.
  rewrite list_lookup_insert_eq in Hpe' by (eapply lookup_lt_Some; exact Hpe).
  injection Hpe' as <-. exists (Detail (edited choice reply pe)).
  rewrite Hshow1. cbn [store with_store]. rewrite edited_twice, list_insert_insert_eq.
  reflexivity.
Qed.

End DetailChoices.

Lemma show_email_detail_keeps_state_witness :
  exists st' out,
    show_email_detail sample_system 1 "2" "   " = Ok (st', out) /\
    st' = sample_system.
Proof.
  eexists _, _. split; [vm_compute; reflexivity|].
  eapply (show_email_detail_keeps_state sample_system _ 1 "2" "   ").
  - vm_compute. discriminate.
  - right. vm_compute. reflexivity.
  - vm_compute. reflexivity.
Defined.

Lemma show_email_detail_repeated_witness :
  exists st1 out,
    show_email_detail sample_system 3 "1" EmptyString = Ok (st1, out) /\
    exists out', show_email_detail st1 3 "1" EmptyString = Ok (st1, out').
Proof.
  eexists _, _. split; [vm_compute; reflexivity|].
  eapply (show_email_detail_repeated sample_system _ 3 "1" EmptyString _
            sample_system_consistent).
  vm_compute. reflexivity.
Defined.

(* ===================================================================== *)
(** * display_analytics after the other operations *)
(* ===================================================================== *)

Section AnalyticsAfter.

Lemma count_by_keys {K : Type} `{EqDecision K} (key : processed_email -> K)
    (items : list processed_email) (counts : list (K * Z)) :
  fold_left (fun counts pe => bump (key pe) counts) items counts
  = fold_left (fun counts k => bump k counts) (map key items) counts.
Proof.
  revert counts. induction items as [|pe items IH]; intros counts; [reflexivity|].
  cbn [fold_left map]. apply IH.
Qed.

Lemma count_by_same_keys {K : Type} `{EqDecision K} (key : processed_email -> K)
    (l l' : list processed_email) :
  map key l = map key l' -> count_by key l = count_by key l'.
Proof. intros Hk. unfold count_by. rewrite !count_by_keys, Hk. reflexivity. Qed.

Lemma map_insert_same {K : Type} (key : processed_email -> K)
    (l : list processed_email) (r : nat) (pe pe' : processed_email) :
  l !! r = Some pe -> key pe' = key pe -> map key (<[r := pe']> l) = map key l.
Proof.
  intros Hr Hk. change (key <$> <[r := pe']> l = key <$> l).
  rewrite list_fmap_insert, Hk. apply list_insert_id.
  rewrite list_lookup_fmap, Hr. reflexivity.
Qed.

Lemma with_status_insert (s : status_label) (l : list processed_email) (r : nat)
    (pe pe' : processed_email) :
  l !! r = Some pe ->
  with_status s (<[r := pe']> l)
  = (with_status s l
     - (if bool_decide (status pe = s) then 1 else 0)
     + (if bool_decide (status pe' = s) then 1 else 0))%Z.
Proof.
  intros Hr. unfold with_status.
  rewrite insert_take_drop by (eapply lookup_lt_Some; exact Hr).
  rewrite <- (take_drop_middle l r pe Hr) at 3.
  rewrite !List.filter_app, !length_app. cbn [List.filter].
  destruct (bool_decide (status pe = s)), (bool_decide (status pe' = s));
    cbn [length]; lia.
Qed.

Lemma display_analytics_some (st : system) :
  consistent st -> processed_emails st <> [] ->
  display_analytics st
  = Some {| total_emails := Z.of_nat (length (store st));
            resolved_emails := with_status Resolved (store st);
            pending_emails := (Z.of_nat (length (store st))
                               - with_status Resolved (store st))%Z;
            sentiment_counts := count_by sentiment (store st);
            priority_counts := count_by priority (store st);
            category_counts := count_by category (store st) |}.
Proof.
  intros Hcons Hne.
  destruct (display_analytics st) as [a|] eqn:Ha.
  - rewrite (display_analytics_consistent st a Hcons Ha). reflexivity.
  - unfold display_analytics in Ha. destruct (processed_emails st); [congruence | discriminate].
Qed.

(** X18. In a consistent state a call of [show_email_detail] leaves the
    total and the three distributions of [display_analytics] as they
    were; the number of resolved emails grows by one when the call marks
    a Pending email resolved, and stays the same otherwise. *)
Theorem analytics_after_detail (st st' : system) (index : Z) (choice reply : string)
    (out : shown) (a : analytics) :
  consistent st ->
  show_email_detail st index choice reply = Ok (st', out) ->
  display_analytics st = Some a ->
  exists a',
    display_analytics st' = Some a' /\
    total_emails a' = total_emails a /\
    sentiment_counts a' = sentiment_counts a /\
    priority_counts a' = priority_counts a /\
    category_counts a' = category_counts a /\
    resolved_emails a'
    = (resolved_emails a
       + match out with
         | Detail pe =>
             if String.eqb (strip choice) "1"
             then match status pe with Pending => 1 | Resolved => 0 end
             else 0
         | Invalid_index => 0
         end)%Z.
Proof.
  intros Hcons Hshow Ha.
  pose proof (show_email_detail_consistent _ _ _ _ _ _ Hcons Hshow) as Hcons'.
  destruct (show_email_detail_effect _ _ _ _ _ _ Hshow) as (_ & Hproc & _ & _ & _).
  assert (Hne : processed_emails st <> []).
  { intros Hnil. unfold display_analytics in Ha. rewrite Hnil in Ha. discriminate. }
  rewrite (display_analytics_consistent st a Hcons Ha).
  rewrite (display_analytics_some st' Hcons') by (rewrite Hproc; exact Hne).
  eexists. split; [reflexivity|].
  cbn [total_emails resolved_emails sentiment_counts priority_counts category_counts].
  assert (Hwf : well_formed st) by apply Hcons.
  destruct (Z.ltb_spec index 1) as [Hlow|Hlow].
  { rewrite show_email_detail_outside in Hshow by lia. injection Hshow as <- <-.
    repeat split; try reflexivity. lia. }
  destruct (Z.ltb_spec (Z.of_nat (length (processed_emails st))) index) as [Hhigh|Hhigh].
  { rewrite show_email_detail_outside in Hshow by lia. injection Hshow as <- <-.
    repeat split; try reflexivity. lia. }
  destruct (show_email_detail_inside st index choice reply Hwf)
    as (r & pe & _ & Hpe & _ & Hshow0); [lia|].
  rewrite Hshow0 in Hshow. injection Hshow as <- <-. cbn [store with_store].
  assert (Hrel : same_but_workflow pe (edited choice reply pe)).
  { unfold edited. destruct (String.eqb (strip choice) "1"); [repeat split|].
    destruct (_ && _)%bool; repeat split. }
  destruct Hrel as (_ & Hs & Hp & _ & Hc & _).
  rewrite length_insert.
  rewrite (count_by_same_keys sentiment _ (store st))
    by (apply (map_insert_same sentiment _ _ pe); auto).
  rewrite (count_by_same_keys priority _ (store st))
    by (apply (map_insert_same priority _ _ pe); auto).
  rewrite (count_by_same_keys category _ (store st))
    by (apply (map_insert_same category _ _ pe); auto).
  repeat (split; [reflexivity|]).
  rewrite (with_status_insert Resolved _ _ pe _ Hpe). unfold edited.
  destruct (String.eqb (strip choice) "1").
  - cbn [status set_status]. rewrite (bool_decide_true (Resolved = Resolved)) by reflexivity.
    destruct (status pe); [rewrite bool_decide_false by discriminate
                          | rewrite bool_decide_true by reflexivity]; lia.
  - destruct (_ && _)%bool; cbn [status set_generated_response];
      destruct (bool_decide (status pe = Resolved)); lia.
Qed.

End AnalyticsAfter.

Lemma analytics_after_detail_witness :
  exists st' out a a',
    show_email_detail sample_system 1 "1" EmptyString = Ok (st', out) /\
    display_analytics sample_system = Some a /\
    display_analytics st' = Some a' /\
    category_counts a' = category_counts a.
Proof.
  eexists _, _, _. 
  destruct (analytics_after_detail sample_system _ 1 "1" EmptyString _ _
              sample_system_consistent
              ltac:(vm_compute; reflexivity) ltac:(vm_compute; reflexivity))
    as (a' & Ha' & _ & _ & _ & Hc & _).
  exists a'. split; [vm_compute; reflexivity|]. split; [vm_compute; reflexivity|].
  split; [exact Ha' | exact Hc].
Defined.

Section AnalyticsFresh.
Context `{SentimentAnalyzer} `{Clock}.



End AnalyticsFresh.


(* ===================================================================== *)
(** * More on generate_response *)
(* ===================================================================== *)

Section ResponseText.

(** X20. The response of [generate_response] is the written-out template
    with the generic sentence, for every email: [textwrap.dedent] removes
    nothing, [strip] removes the first and the last line break only, and
    the response has no line break at either end. *)
Theorem generate_response_text (e : email) (extracted : extracted_info) :
  generate_response e extracted
  = response_text (info_sentiment extracted) (categorize_email e) /\
  strip (generate_response e extracted) = generate_response e extracted.
Proof.
  unfold generate_response.
  destruct (categorize_email_cases e) as [Hc|[Hc|[Hc|Hc]]]; rewrite Hc;
    destruct (info_sentiment extracted); split; vm_compute; reflexivity.
Qed.

(** X21. The response depends on the category of the email and on the
    sentiment label of the signals only, and it tells them apart: two
    responses are equal exactly when both are. *)
Theorem generate_response_injective (e e' : email) (i i' : extracted_info) :
  generate_response e i = generate_response e' i' <->
  categorize_email e = categorize_email e' /\ info_sentiment i = info_sentiment i'.
Proof.
  split.
  - intros Heq. apply String.eqb_eq in Heq. revert Heq. unfold generate_response.
    destruct (categorize_email_cases e) as [Hc|[Hc|[Hc|Hc]]]; rewrite Hc;
      destruct (categorize_email_cases e') as [Hc'|[Hc'|[Hc'|Hc']]]; rewrite Hc';
      destruct (info_sentiment i), (info_sentiment i');
      vm_compute; intros Heq; first [discriminate Heq | split; reflexivity].
  - intros [Hc Hs]. unfold generate_response. rewrite Hc, Hs. reflexivity.
Qed.

End ResponseText.

(* ===================================================================== *)
(** * extract_information: the phone numbers *)
(* ===================================================================== *)

Section Phones.

Lemma prev_after_cons (k : nat) (prev : option ascii) (c : ascii) (s : string) :
  Re.prev_after (S k) prev (String c s) = Re.prev_after k (Some c) s.
Proof. destruct k; reflexivity. Qed.

Lemma findall_from_elements (p : Re.pattern) (s : string) (prev : option ascii)
    (skip : nat) (m : string) :
  In m (Re.findall_from p prev skip s) ->
  exists k n,
    Re.match_at p (Re.prev_after k prev s) (Re.drop_chars k s) = Some (S n) /\
    m = Re.take_chars (S n) (Re.drop_chars k s).
Proof.
  revert prev skip. induction s as [|c s IH]; intros prev skip Hin; [destruct Hin|].
  assert (Hlater : forall skip', In m (Re.findall_from p (Some c) skip' s) ->
            exists k n,
              Re.match_at p (Re.prev_after k prev (String c s))
                          (Re.drop_chars k (String c s)) = Some (S n) /\
              m = Re.take_chars (S n) (Re.drop_chars k (String c s))).
  { intros skip' Hin'. destruct (IH _ _ Hin') as (k & n & Hm & ->).
    exists (S k), n. rewrite prev_after_cons. split; [exact Hm | reflexivity]. }
  cbn [Re.findall_from] in Hin. destruct skip as [|skip]; [|exact (Hlater _ Hin)].
  destruct (Re.match_at p prev (String c s)) as [[|n]|] eqn:Hm;
    try exact (Hlater _ Hin).
  destruct Hin as [<-|Hin]; [|exact (Hlater _ Hin)].
  exists 0, n. split; [exact Hm | reflexivity].
Qed.

Lemma take_chars_add (k n : nat) (s : string) :
  Re.take_chars (k + n) s = Re.take_chars k s ++ Re.take_chars n (Re.drop_chars k s).
Proof.
  revert s. induction k as [|k IH]; intros s; [reflexivity|].
  destruct s as [|c s]; [destruct n; reflexivity|].
  cbn [Nat.add Re.take_chars Re.drop_chars]. rewrite IH. reflexivity.
Qed.

Lemma take_chars_length (k : nat) (s : string) :
  k <= String.length s -> String.length (Re.take_chars k s) = k.
Proof.
  revert s. induction k as [|k IH]; intros s Hk; [destruct s; reflexivity|].
  destruct s as [|c s]; [simpl in Hk; lia|].
  cbn [Re.take_chars String.length]. rewrite IH; [reflexivity | simpl in Hk; lia].
Qed.

Lemma short_separator (x : string) :
  String.length x <= 1 -> all_chars (Re.one_of "-.") x = true -> separator x.
Proof.
  destruct x as [|c [|d x]]; intros Hlen Hall.
  - left. reflexivity.
  - cbn in Hall. unfold separator.
    destruct (Ascii.eqb_spec c "-") as [->|_]; [auto|].
    destruct (Ascii.eqb_spec c ".") as [->|_]; [auto | discriminate].
  - simpl in Hlen. lia.
Qed.

Lemma matches_phone_shaped (prev : option ascii) (s : string) (n : nat) :
  Re.matches phone_pattern prev s n -> phone_shaped (Re.take_chars n s).
Proof.
  unfold phone_pattern, Re.times, Re.opt. intros Hm.
  inversion Hm as [| ? ? ? ? _ H1 |]; subst; clear Hm.
  inversion H1 as [| | ? ? ? ? ? ? ka na Hlo1 Hhi1 Hlen1 Hall1 H2]; subst; clear H1.
  inversion H2 as [| | ? ? ? ? ? ? kb nb Hlo2 Hhi2 Hlen2 Hall2 H3]; subst; clear H2.
  inversion H3 as [| | ? ? ? ? ? ? kc nc Hlo3 Hhi3 Hlen3 Hall3 H4]; subst; clear H3.
  inversion H4 as [| | ? ? ? ? ? ? kd nd Hlo4 Hhi4 Hlen4 Hall4 H5]; subst; clear H4.
  inversion H5 as [| | ? ? ? ? ? ? ke ne Hlo5 Hhi5 Hlen5 Hall5 H6]; subst; clear H5.
  inversion H6 as [| ? ? ? ? _ H7 |]; subst; clear H6.
  inversion H7; subst; clear H7.
  specialize (Hhi1 _ eq_refl). specialize (Hhi2 _ eq_refl). specialize (Hhi3 _ eq_refl).
  specialize (Hhi4 _ eq_refl). specialize (Hhi5 _ eq_refl).
  rewrite Nat.add_0_r. rewrite !take_chars_add.
  eexists _, _, _, _, _. split; [reflexivity|].
  repeat split; try assumption;
    try (rewrite take_chars_length by assumption; lia);
    apply short_separator; try assumption;
    rewrite take_chars_length by assumption; lia.
Qed.

Lemma contains_drop_chars (x s : string) (k : nat) :
  contains x (Re.drop_chars k s) = true -> contains x s = true.
Proof.
  revert s. induction k as [|k IH]; intros s Hx; [destruct s; exact Hx|].
  destruct s as [|c s]; [exact Hx|]. cbn [Re.drop_chars] in Hx.
  cbn [contains]. rewrite (IH s Hx). apply orb_true_r.
Qed.

Lemma prefix_take_chars (n : nat) (s : string) :
  String.prefix (Re.take_chars n s) s = true.
Proof.
  revert s. induction n as [|n IH]; intros s; [destruct s; reflexivity|].
  destruct s as [|c s]; [reflexivity|]. cbn [Re.take_chars String.prefix].
  destruct (ascii_dec c c); [apply IH | congruence].
Qed.

Lemma contains_take_chars (n : nat) (s : string) :
  contains (Re.take_chars n s) s = true.
Proof.
  destruct s as [|c s]; cbn [contains]; rewrite prefix_take_chars; reflexivity.
Qed.

(** X22. Every phone number that [extract_information] returns is a piece
    of the subject and body made of ten digits in groups of three, three
    and four, each of the two gaps being empty or one [-] or [.]. *)
Theorem phone_numbers_shape `{SentimentAnalyzer} (e : email) (i : extracted_info) :
  extract_information e = Ok i ->
  Forall (fun m => phone_shaped m /\ contains m (text_of e) = true) (phone_numbers i).
Proof.
  unfold extract_information. intros Hi.
  destruct (alternates _) as [alts|x]; [|discriminate].
  cbn in Hi. injection Hi as <-. cbn [phone_numbers].
  apply Forall_forall. intros m Hm. apply list_elem_of_In in Hm.
  apply findall_from_elements in Hm as (k & n & Hmatch & ->). split.
  - apply (matches_phone_shaped _ _ _ (match_at_sound _ _ _ _ Hmatch)).
  - apply (contains_drop_chars _ _ k), contains_take_chars.
Qed.

End Phones.

Lemma phone_numbers_shape_witness :
  exists i,
    @extract_information neutral_analyzer mail_with_phone = Ok i /\
    phone_numbers i = ["555-123.4567"] /\
    Forall (fun m => phone_shaped m /\ contains m (text_of mail_with_phone) = true)
           (phone_numbers i).
Proof.
  eexists. split; [vm_compute; reflexivity|]. split; [vm_compute; reflexivity|].
  apply (@phone_numbers_shape neutral_analyzer mail_with_phone).
  vm_compute. reflexivity.
Defined.

(* ===================================================================== *)
(** * extract_information: the requirements are trimmed *)
(* ===================================================================== *)

Section Trimmed.

Lemma lstrip_head (s : string) :
  lstrip s = EmptyString \/
  exists c t, lstrip s = String c t /\ is_space c = false.
Proof.
  induction s as [|c s IH]; [left; reflexivity|].
  cbn [lstrip]. destruct (is_space c) eqn:Hc; [exact IH|].
  right. exists c, s. auto.
Qed.

Lemma rstrip_twice (s : string) : rstrip (rstrip s) = rstrip s.
Proof.
  induction s as [|c s IH]; [reflexivity|]. cbn [rstrip].
  destruct (rstrip s) as [|d r] eqn:Hr.
  - destruct (is_space c) eqn:Hc; [reflexivity|]. cbn [rstrip]. rewrite Hc. reflexivity.
  - cbn [rstrip]. cbn [rstrip] in IH. rewrite IH. reflexivity.
Qed.

Lemma rstrip_head (c : ascii) (t : string) :
  is_space c = false -> exists t', rstrip (String c t) = String c t'.
Proof.
  intros Hc. cbn [rstrip]. destruct (rstrip t); [rewrite Hc|]; eauto.
Qed.

Lemma strip_twice (s : string) : strip (strip s) = strip s.
Proof.
  unfold strip. destruct (lstrip_head s) as [Hs|(c & t & Hs & Hc)]; rewrite Hs.
  - reflexivity.
  - destruct (rstrip_head c t Hc) as [t' Ht']. rewrite Ht'.
    cbn [lstrip]. rewrite Hc, <- Ht'. apply rstrip_twice.
Qed.

Lemma all_chars_lstrip (cls : ascii -> bool) (s : string) :
  all_chars cls s = true -> all_chars cls (lstrip s) = true.
Proof.
  induction s as [|c s IH]; [trivial|]. intros Hall. cbn [lstrip].
  destruct (is_space c); [|exact Hall].
  cbn in Hall. apply andb_true_iff in Hall as [_ Hall]. exact (IH Hall).
Qed.

Lemma all_chars_rstrip (cls : ascii -> bool) (s : string) :
  all_chars cls s = true -> all_chars cls (rstrip s) = true.
Proof.
  induction s as [|c s IH]; [trivial|]. intros Hall.
  cbn in Hall. apply andb_true_iff in Hall as [Hc Hall]. specialize (IH Hall).
  cbn [rstrip]. destruct (rstrip s) as [|d r].
  - destruct (is_space c); [reflexivity|]. cbn. rewrite Hc. reflexivity.
  - cbn [all_chars]. rewrite Hc. exact IH.
Qed.

(** X23. Every requirement that [extract_information] returns is trimmed
    (trimming it again changes nothing), is not empty and holds none of
    the characters [.], [!] and [?]. *)
Theorem requirements_are_trimmed `{SentimentAnalyzer} (e : email) (i : extracted_info) :
  extract_information e = Ok i ->
  Forall (fun r => strip r = r /\ r <> EmptyString /\
                   all_chars (fun c => negb (Re.one_of ".!?" c)) r = true)
         (requirements i).
Proof.
  intros Hi. rewrite (extract_information_requirements e i Hi).
  apply Forall_forall. intros r Hr. apply subseteq_take in Hr.
  apply list_elem_of_In, in_map_iff in Hr as (s & <- & Hs).
  apply filter_In in Hs as [Hs Hw]. split; [apply strip_twice|]. split.
  - intros Hempty. apply requirement_keyword_survives_strip in Hw.
    rewrite Hempty in Hw. discriminate.
  - unfold strip. apply all_chars_rstrip, all_chars_lstrip.
    apply list_elem_of_In in Hs.
    exact (proj1 (Forall_forall _ _) (split_pieces_clean _ _) s Hs).
Qed.

End Trimmed.

Lemma requirements_are_trimmed_witness :
  exists i,
    @extract_information neutral_analyzer mail_with_phone = Ok i /\
    requirements i = ["Callback Please help with my order, call 555-123"] /\
    Forall (fun r => strip r = r /\ r <> EmptyString /\
                     all_chars (fun c => negb (Re.one_of ".!?" c)) r = true)
           (requirements i).
Proof.
  eexists. split; [vm_compute; reflexivity|]. split; [vm_compute; reflexivity|].
  apply (@requirements_are_trimmed neutral_analyzer mail_with_phone).
  vm_compute. reflexivity.
Defined.

(* ===================================================================== *)
(** * run_cli *)
(* ===================================================================== *)

Section Session.
Context `{IntParser}.

Lemma same_session_refl (st : system) : same_session st st.
Proof.
  repeat split. intros r. destruct (store st !! r); constructor.
  apply same_but_workflow_refl.
Qed.

Lemma same_but_workflow_trans (a b c : processed_email) :
  same_but_workflow a b -> same_but_workflow b c -> same_but_workflow a c.
Proof. unfold same_but_workflow. intuition congruence. Qed.

Lemma same_session_trans (st1 st2 st3 : system) :
  same_session st1 st2 -> same_session st2 st3 -> same_session st1 st3.
Proof.
  intros (He & Hp & Hq & Hc & Hs) (He' & Hp' & Hq' & Hc' & Hs').
  repeat split; try congruence. intros r.
  specialize (Hs r). specialize (Hs' r).
  destruct (store st1 !! r), (store st2 !! r), (store st3 !! r);
    inversion Hs; inversion Hs'; subst; constructor.
  eapply same_but_workflow_trans; eassumption.
Qed.

Lemma detail_step (st st' : system) (index : Z) (choice reply : string) (out : shown) :
  consistent st ->
  show_email_detail st index choice reply = Ok (st', out) ->
  consistent st' /\ same_session st st'.
Proof.
  intros Hcons Hshow. split; [eapply show_email_detail_consistent; eassumption|].
  destruct (show_email_detail_effect _ _ _ _ _ _ Hshow) as (He & Hp & Hq & Hc & _).
  repeat split; try assumption. eapply store_related. exact Hshow.
Qed.

Lemma detail_returns (st : system) (index : Z) (choice reply : string) :
  consistent st ->
  exists st' out, show_email_detail st index choice reply = Ok (st', out).
Proof.
  intros Hcons. assert (Hwf : well_formed st) by apply Hcons.
  destruct (Z.ltb_spec index 1) as [Hlow|Hlow].
  { eexists _, _. apply show_email_detail_outside. lia. }
  destruct (Z.ltb_spec (Z.of_nat (length (processed_emails st))) index) as [Hhigh|Hhigh].
  { eexists _, _. apply show_email_detail_outside. lia. }
  destruct (show_email_detail_inside st index choice reply Hwf)
    as (r & pe & _ & _ & _ & Hshow); [lia|].
  eexists _, _. exact Hshow.
Qed.

Lemma numbering_related (l k : list processed_email) :
  Forall2 same_but_workflow l k -> numbering l = numbering k.
Proof.
  unfold numbering. induction 1 as [|a b l k Hab _ IH]; [reflexivity|].
  cbn [map]. destruct Hab as (_ & _ & _ & _ & _ & _ & Hid). rewrite Hid, IH. reflexivity.
Qed.

Lemma listing_numbering (st st' : system) (f : option priority_label) :
  same_session st st' ->
  numbering (display_emails st' f) = numbering (display_emails st f).
Proof.
  intros (_ & Hp & Hq & _ & Hs). symmetry. apply numbering_related.
  unfold display_emails. rewrite Hp.
  assert (Hview : priority_emails st' = priority_emails st).
  { unfold priority_emails. rewrite Hq. reflexivity. }
  rewrite Hview. destruct (processed_emails st); [constructor|].
  pose proof (deref_related st st' (priority_emails st) Hs) as Hrel.
  destruct f as [p|]; [|exact Hrel].
  apply filter_related; [|exact Hrel].
  intros a b (_ & _ & Hprio & _). rewrite Hprio. reflexivity.
Qed.

Lemma numbered_as_session (st st' : system) (screens : list screen) :
  same_session st st' -> numbered_as st' screens -> numbered_as st screens.
Proof.
  intros Hs Hn. unfold numbered_as in *. eapply Forall_impl; [exact Hn|].
  intros [f items| | | | |]; trivial.
  intros ->. apply listing_numbering, Hs.
Qed.

Lemma good_end (st : system) (screens : list screen) (e : ending) :
  consistent st -> numbered_as st screens ->
  e = Returned st \/ e = End_of_input st ->
  good_session st (screens, e).
Proof.
  intros Hcons Hn He. split; [exact Hn|]. exists st.
  split; [exact He|]. split; [exact Hcons | apply same_session_refl].
Qed.

Lemma good_shows (st : system) (s : screen) (r : list screen * ending) :
  match s with
  | Listing f items => numbering items = numbering (display_emails st f)
  | _ => True
  end ->
  good_session st r -> good_session st (shows s r).
Proof.
  intros Hs [Hn Hend]. split; [|exact Hend]. constructor; assumption.
Qed.

Lemma good_later (st st1 : system) (s : screen) (r : list screen * ending) :
  same_session st st1 ->
  match s with Listing _ _ => False | _ => True end ->
  good_session st1 r -> good_session st (shows s r).
Proof.
  intros Hss Hs [Hn (st' & He & Hcons & Hss')]. split.
  - constructor; [destruct s; tauto|]. eapply numbered_as_session; eassumption.
  - exists st'. split; [exact He|]. split; [exact Hcons|].
    eapply same_session_trans; eassumption.
Qed.

Lemma menu_good (n : nat) (inputs : list string) (st : system) :
  length inputs <= n -> consistent st -> good_session st (menu inputs st).
Proof.
  revert inputs st. induction n as [|n IH]; intros inputs st Hlen Hcons.
  { destruct inputs; [|simpl in Hlen; lia].
    apply good_end; [exact Hcons | constructor | auto]. }
  destruct inputs as [|line rest]; [apply good_end; [exact Hcons | constructor | auto]|].
  cbn [length] in Hlen. cbn [menu].
  destruct (String.eqb (strip line) "1");
    [apply good_shows; [reflexivity | apply IH; [lia | exact Hcons]]|].
  destruct (String.eqb (strip line) "2");
    [apply good_shows; [reflexivity | apply IH; [lia | exact Hcons]]|].
  destruct (String.eqb (strip line) "3");
    [apply good_shows; [exact I | apply IH; [lia | exact Hcons]]|].
  destruct (String.eqb (strip line) "4").
  2: { destruct (String.eqb (strip line) "5").
       - apply good_end; [exact Hcons | repeat constructor | auto].
       - apply good_shows; [exact I | apply IH; [lia | exact Hcons]]. }
  destruct rest as [|number rest1]; [apply good_end; [exact Hcons | constructor | auto]|].
  cbn [length] in Hlen.
  destruct (int_of number) as [index|];
    [|apply good_shows; [exact I | apply IH; [lia | exact Hcons]]].
  destruct (detail_returns st index EmptyString EmptyString Hcons) as (st0 & out0 & ->).
  destruct out0 as [|pe];
    [apply good_shows; [exact I | apply IH; [lia | exact Hcons]]|].
  destruct rest1 as [|answer rest2];
    [apply good_end; [exact Hcons | repeat constructor | auto]|].
  cbn [length] in Hlen.
  destruct (String.eqb (strip answer) "2").
  - destruct rest2 as [|reply rest3];
      [apply good_end; [exact Hcons | repeat constructor | auto]|].
    cbn [length] in Hlen.
    destruct (detail_returns st index answer reply Hcons) as (st' & out & Hshow).
    rewrite Hshow. destruct (detail_step _ _ _ _ _ _ Hcons Hshow) as [Hcons' Hss].
    apply (good_later st st'); [exact Hss | exact I | apply IH; [lia | exact Hcons']].
  - destruct (detail_returns st index answer EmptyString Hcons) as (st' & out & Hshow).
    rewrite Hshow. destruct (detail_step _ _ _ _ _ _ Hcons Hshow) as [Hcons' Hss].
    apply (good_later st st'); [exact Hss | exact I | apply IH; [lia | exact Hcons']].
Qed.

(** X24. A session at the menu that starts in a consistent state never
    ends in an exception of the engine, whatever is typed: it returns
    after the choice 5 or stops for lack of input. The state it ends in
    is consistent, has the same queue and lists, and its dictionaries
    differ from the first ones in [status] and [generated_response] at
    most. *)
Theorem menu_session_safe (inputs : list string) (st : system) :
  consistent st ->
  exists st',
    (snd (menu inputs st) = Returned st' \/ snd (menu inputs st) = End_of_input st') /\
    consistent st' /\ same_session st st'.
Proof.
  intros Hcons. apply (menu_good (length inputs) inputs st (le_n _) Hcons).
Qed.

(** X25. During a session at the menu every listing, full or Urgent-only,
    shows the emails under the numbers they have in the listing of the
    first state: marking emails resolved and editing responses never
    renumbers them. *)
Theorem menu_session_numbering (inputs : list string) (st : system) :
  consistent st -> numbered_as st (fst (menu inputs st)).
Proof.
  intros Hcons. apply (menu_good (length inputs) inputs st (le_n _) Hcons).
Qed.

End Session.

Section WholeRun.
Context `{SentimentAnalyzer} `{Clock} `{IntParser}.




Lemma run_cli_loaded_texts (rows : list row) (batch : list email)
    (inputs : list string) :
  texts rows = Ok batch -> run_cli_loaded rows inputs = run_cli batch true inputs.
Proof.
  intros Ht. unfold run_cli_loaded, run_cli.
  rewrite (process_rows_texts rows batch Ht). reflexivity.
Qed.

Lemma run_cli_ends (batch : list email) (inputs : list string) :
  Forall (fun e => Re.has_match email_pattern (text_of e) = false)
         (List.filter is_support batch) ->
  exists st, snd (run_cli batch true inputs) = Returned st \/
             snd (run_cli batch true inputs) = End_of_input st.
Proof.
  intros Hall. unfold run_cli, process_emails, filter_emails. cbn [emails loaded].
  destruct (process_loop_consistent 0 _ _ (loaded_consistent batch) Hall)
    as (st & -> & _ & _ & _ & Hcons).
  cbn [mbind result_bind]. destruct (_ =? _)%nat.
  - exists st. cbn [snd]. auto.
  - destruct (menu_good (length inputs) inputs st (le_n _) Hcons)
      as [_ (st' & He & _)].
    exists st'. exact He.
Qed.

(** X27. After a successful load an exception of the program can end
    [run_cli] only before the menu is shown, whatever would be typed: the
    [AttributeError] of [filter_emails] exactly when the subject or the
    body of some loaded email is not text, and the [TypeError] of
    [extract_information] exactly when every cell is text and an email
    that passes the filter holds an address. Exactly when every cell is
    text and no such email holds an address, [run_cli] ends by returning
    or, once the typed lines run out, with the [EOFError] of [input]. *)
Theorem run_cli_uncaught_iff_address (rows : list row) (inputs : list string) :
  (snd (run_cli_loaded rows inputs) = Uncaught AttributeError <->
   Exists (fun r => row_subject r = Not_text \/ row_body r = Not_text) rows) /\
  (snd (run_cli_loaded rows inputs) = Uncaught TypeError <->
   exists batch,
     texts rows = Ok batch /\
     Exists (fun e => Re.has_match email_pattern (text_of e) = true)
            (List.filter is_support batch)) /\
  ((exists st, snd (run_cli_loaded rows inputs) = Returned st \/
               snd (run_cli_loaded rows inputs) = End_of_input st) <->
   exists batch,
     texts rows = Ok batch /\
     Forall (fun e => Re.has_match email_pattern (text_of e) = false)
            (List.filter is_support batch)) /\
  (forall x, snd (run_cli_loaded rows inputs) = Uncaught x ->
             fst (run_cli_loaded rows inputs) = []).
Proof.
  destruct (texts_cases rows) as [(batch & Ht & _)|[Ht Hex]].
  - pose proof (texts_all_text rows batch Ht) as Hall.
    rewrite (run_cli_loaded_texts rows batch inputs Ht).
    assert (Hsame : forall batch', texts rows = Ok batch' -> batch' = batch)
      by (intros batch' Ht'; congruence).
    destruct (address_or_not (List.filter is_support batch)) as [Haddr|Hno].
    + destruct (process_emails_loaded batch) as [Hraise _]. cbv zeta in Hraise.
      unfold run_cli. rewrite (Hraise Haddr). cbn [fst snd].
      split; [|split; [|split]].
      * split; [discriminate | intros Hex; destruct (Hall Hex)].
      * split; [intros _; exists batch; auto | reflexivity].
      * split; [intros (st & [Hr|Hr]); discriminate|].
        intros (batch' & Ht' & Hno). rewrite (Hsame batch' Ht') in Hno.
        exfalso. apply Exists_exists in Haddr as (e & He & Hm).
        pose proof (proj1 (Forall_forall _ _) Hno e He) as Hf. simpl in Hf. congruence.
      * reflexivity.
    + destruct (run_cli_ends batch inputs Hno) as (st & Hend).
      assert (Hnone : forall x, snd (run_cli batch true inputs) <> Uncaught x)
        by (intros x Hx; destruct Hend as [Hr|Hr]; congruence).
      split; [|split; [|split]].
      * split; [intros Hx; destruct (Hnone _ Hx) | intros Hex; destruct (Hall Hex)].
      * split; [intros Hx; destruct (Hnone _ Hx)|].
        intros (batch' & Ht' & Haddr). rewrite (Hsame batch' Ht') in Haddr.
        exfalso. apply Exists_exists in Haddr as (e & He & Hm).
        pose proof (proj1 (Forall_forall _ _) Hno e He) as Hf. simpl in Hf. congruence.
      * split; [intros _; exists batch; auto | intros _; exists st; exact Hend].
      * intros x Hx. destruct (Hnone _ Hx).
  - unfold run_cli_loaded. rewrite (process_rows_raises rows Hex). cbn [fst snd].
    split; [|split; [|split]].
    + split; [intros _; exact Hex | reflexivity].
    + split; [discriminate | intros (batch & Ht' & _); congruence].
    + split; [intros (st & [Hr|Hr]); discriminate | intros (batch & Ht' & _); congruence].
    + reflexivity.
Qed.


End WholeRun.

Lemma menu_session_safe_witness :
  exists st',
    snd (@menu decimal_int sample_inputs sample_system) = Returned st' /\
    consistent st'.
Proof.
  destruct (@menu_session_safe decimal_int sample_inputs sample_system
              sample_system_consistent) as (st' & [He|He] & Hcons & _).
  - exists st'. split; assumption.
  - vm_compute in He. discriminate He.
Defined.

Lemma menu_session_numbering_witness :
  numbered_as sample_system (fst (@menu decimal_int sample_inputs sample_system)).
Proof.
  apply (@menu_session_numbering decimal_int sample_inputs sample_system
           sample_system_consistent).
Defined.



Example menu_ex :
  map (fun s => match s with
                | Listing _ items => numbering items
                | _ => []
                end)
      (fst (@menu decimal_int sample_inputs sample_system))
  = [[2; 1; 0]; []; []; []; []] /\
  (exists st, snd (@menu decimal_int sample_inputs sample_system) = Returned st /\
              map status (display_emails st None) = [Pending; Resolved; Pending]).
Proof. split; [vm_compute; reflexivity|]. eexists. split; vm_compute; reflexivity. Qed.

Example rows_ex :
  @process_rows neutral_analyzer ticking_clock (map row_of sample_batch ++ [row_without_body])
    = Raise AttributeError /\
  @process_rows neutral_analyzer ticking_clock (map row_of batch_with_addresses)
    = Raise TypeError /\
  (exists st, @process_rows neutral_analyzer ticking_clock (map row_of sample_batch)
              = Ok (st, 3)) /\
  snd (@run_cli_loaded neutral_analyzer ticking_clock decimal_int
         (map row_of sample_batch) ["1"; "3"]) =
  snd (@run_cli neutral_analyzer ticking_clock decimal_int sample_batch true ["1"; "3"]).
Proof.
  split; [vm_compute; reflexivity|]. split; [vm_compute; reflexivity|].
  split; [eexists; vm_compute; reflexivity | vm_compute; reflexivity].
Qed.
